(** * salt/states/netconfig.py: the NAPALM network-configuration state module

    A shallow embedding of [_update_config], [managed], [commit_cancelled]
    and [commit_confirmed], with Python's keyword-argument binding written
    out, and the properties of the commit / confirm / cancel workflow that
    can be read off the module. *)

From stdpp Require Import gmap strings stringmap list fin_maps.

Open Scope string_scope.
Set Warnings "-register-all".

(** ** Python values *)

(** The values that flow through the module: [None], booleans, integers,
    strings, lists and dictionaries with string keys (keyword arguments,
    outcome records). *)
Inductive value :=
| VNone
| VBool (b : bool)
| VInt (n : Z)
| VStr (s : string)
| VList (l : list value)
| VDict (d : gmap string value).

Global Instance value_inhabited : Inhabited value := populate VNone.

(** Python truthiness, as used by [if __opts__['test']:]. *)
Definition truthy (v : value) : bool :=
  match v with
  | VNone => false
  | VBool b => b
  | VInt n => negb (Z.eqb n 0)
  | VStr s => negb (String.eqb s "")
  | VList l => match l with [] => false | _ => true end
  | VDict d => negb (bool_decide (d = ∅))
  end.

(** ** Exceptions and results *)

Inductive exn :=
| TypeError
| KeyError (key : string)
| InvalidDirective
| ConflictingDirective
| TemplateError
| DeviceCommError
| UnknownOrTerminalCommit
| InvalidTransition.

Inductive result (A : Type) :=
| Ok (a : A)
| Err (e : exn).
Arguments Ok {A} a.
Arguments Err {A} e.

Definition is_Ok {A} (r : result A) : Prop :=
  match r with
  | Ok _ => True
  | Err _ => False
  end.

Global Instance result_ret : MRet result := λ A a, Ok a.
Global Instance result_bind : MBind result := λ A B f r,
  match r with
  | Ok a => f a
  | Err e => Err e
  end.

(** ** Calls into the execution modules

    The functions the state module reaches through [__salt__] and that
    talk to the device or to the registry of pending commits. *)
Inductive call :=
| LoadTemplate (args : list value) (kwargs : gmap string value)
| CancelCommit (name : string)
| ConfirmCommit (name : string).

(** A run of a state function: it returns, raises, or calls an execution
    function and continues with what that function returned. *)
Inductive prog (A : Type) :=
| Ret (a : A)
| Throw (e : exn)
| Call (c : call) (k : value → prog A).
Arguments Ret {A} a.
Arguments Throw {A} e.
Arguments Call {A} c k.

Fixpoint prog_bind_def {A B} (f : A → prog B) (p : prog A) : prog B :=
  match p with
  | Ret a => f a
  | Throw e => Throw e
  | Call c k => Call c (λ v, prog_bind_def f (k v))
  end.

Global Instance prog_ret : MRet prog := λ A a, Ret a.
Global Instance prog_bind : MBind prog := λ A B f p, prog_bind_def f p.

Definition lift {A} (r : result A) : prog A :=
  match r with
  | Ok a => Ret a
  | Err e => Throw e
  end.

(** The environment answers each call from its state [W] (the device and
    the registry) and may change it. *)
Definition handler (W : Type) : Type := call → W → result value * W.

Record outcome (W A : Type) := Outcome {
  returned : result A;
  final : W;
  trace : list call
}.
Arguments Outcome {W A} returned final trace.
Arguments returned {W A} o.
Arguments final {W A} o.
Arguments trace {W A} o.

Fixpoint run {W A} (h : handler W) (p : prog A) (w : W) : outcome W A :=
  match p with
  | Ret a => Outcome (Ok a) w []
  | Throw e => Outcome (Err e) w []
  | Call c k =>
      match h c w with
      | (Ok v, w') =>
          let o := run h (k v) w' in
          Outcome (returned o) (final o) (c :: trace o)
      | (Err e, w') => Outcome (Err e) w' [c]
      end
  end.

(** ** Python's call protocol

    A function declared [def f(p1, p2=d2, ..., **extra)] is described by
    its parameters in order, each with its default if it has one. A call
    [f(a1, ..., k1=v1, ...)] binds the positional arguments to the first
    parameters, the keywords to the parameters of their name, and collects
    the keywords that name no parameter in [extra]. *)
Definition params := list (string * option value).

Fixpoint bind_positional (ps : params) (args : list value)
  : result (gmap string value) :=
  match args, ps with
  | [], _ => Ok ∅
  | _ :: _, [] => Err TypeError
  | a :: args', (p, _) :: ps' =>
      m ← bind_positional ps' args'; Ok (<[p := a]> m)
  end.

Fixpoint fill_defaults (ps : params) (given : gmap string value)
  : result (gmap string value) :=
  match ps with
  | [] => Ok ∅
  | (p, d) :: ps' =>
      rest ← fill_defaults ps' given;
      match given !! p, d with
      | Some v, _ => Ok (<[p := v]> rest)
      | None, Some v => Ok (<[p := v]> rest)
      | None, None => Err TypeError
      end
  end.

Definition named (ps : params) (kv : string * value) : Prop := kv.1 ∈ ps.*1.

Global Instance named_dec ps kv : Decision (named ps kv).
Proof. unfold named. apply _. Defined.

(** [bind_call ps args kwargs] is the frame of local variables of the
    called function, and the contents of its [**] catch-all. Every way a
    call can be ill-formed (too many positional arguments, a parameter
    given twice, a required parameter missing) raises [TypeError]. *)
Definition bind_call (ps : params) (args : list value)
    (kwargs : gmap string value)
  : result (gmap string value * gmap string value) :=
  pos ← bind_positional ps args;
  let kw := filter (named ps) kwargs in
  if decide (pos ##ₘ kw) then
    locals ← fill_defaults ps (pos ∪ kw);
    Ok (locals, filter (λ kv, ¬ named ps kv) kwargs)
  else Err TypeError.

(** The keyword arguments of a call written [f(x=x, y=y, ..., **star)]:
    the named locals are passed under their own names, and a key of [star]
    that repeats one of them raises [TypeError]. *)
Definition forward (locals : gmap string value) (names : list string)
  : list (string * value) :=
  (λ p, (p, locals !!! p)) <$> names.

Definition call_kwargs (explicit : list (string * value))
    (star : gmap string value) : result (gmap string value) :=
  if decide (Forall (λ p, p ∉ dom star) explicit.*1)
  then Ok (list_to_map explicit ∪ star)
  else Err TypeError.

(** The compiled defaults of a parameter list. *)
Definition defaults (ps : params) : gmap string value :=
  omap id (list_to_map ps : gmap string (option value)).

(** Item access on dictionaries: [d[k]] raises [KeyError] on a missing
    key, and [v[k] = x] raises [TypeError] when [v] is not a dictionary. *)
Definition getitem (d : gmap string value) (k : string) : result value :=
  match d !! k with
  | Some v => Ok v
  | None => Err (KeyError k)
  end.

Definition setitem (v : value) (k : string) (x : value) : result value :=
  match v with
  | VDict d => Ok (VDict (<[k := x]> d))
  | _ => Err TypeError
  end.

(** ** The state module *)

Definition _update_config_params : params :=
  [ ("template_name", None);
    ("template_source", Some VNone);
    ("template_hash", Some VNone);
    ("template_hash_name", Some VNone);
    ("template_user", Some (VStr "root"));
    ("template_group", Some (VStr "root"));
    ("template_mode", Some (VStr "755"));
    ("template_attrs", Some (VStr "--------------e----"));
    ("saltenv", Some VNone);
    ("template_engine", Some (VStr "jinja"));
    ("skip_verify", Some (VBool false));
    ("defaults", Some VNone);
    ("test", Some (VBool false));
    ("commit", Some (VBool true));
    ("debug", Some (VBool false));
    ("replace", Some (VBool false)) ].

Definition managed_params : params :=
  [ ("name", None);
    ("template_name", None);
    ("template_source", Some VNone);
    ("template_hash", Some VNone);
    ("template_hash_name", Some VNone);
    ("template_user", Some (VStr "root"));
    ("template_group", Some (VStr "root"));
    ("template_mode", Some (VStr "755"));
    ("template_attrs", Some (VStr "--------------e----"));
    ("saltenv", Some VNone);
    ("template_engine", Some (VStr "jinja"));
    ("skip_verify", Some (VBool false));
    ("defaults", Some VNone);
    ("test", Some (VBool false));
    ("commit", Some (VBool true));
    ("debug", Some (VBool false));
    ("replace", Some (VBool false));
    ("commit_in", Some VNone);
    ("commit_at", Some VNone);
    ("revert_in", Some VNone);
    ("revert_at", Some VNone) ].

(** The keywords written out at the two call sites, in source order. *)
Definition _update_config_keywords : list string :=
  [ "template_source"; "template_hash"; "template_hash_name";
    "template_user"; "template_group"; "template_mode"; "template_attrs";
    "saltenv"; "template_engine"; "skip_verify"; "defaults"; "test";
    "commit"; "debug"; "replace" ].

Definition managed_keywords : list string :=
  [ "template_source"; "template_hash"; "template_hash_name";
    "template_user"; "template_group"; "template_mode"; "template_attrs";
    "saltenv"; "template_engine"; "skip_verify"; "defaults"; "test";
    "commit"; "commit_in"; "commit_at"; "revert_in"; "revert_at";
    "debug"; "replace" ].

(** [_update_config]: binds its arguments and hands all of them to
    [net.load_template]. *)
Definition _update_config (args : list value) (kwargs : gmap string value)
  : prog value :=
  '(l, template_vars) ← lift (bind_call _update_config_params args kwargs);
  kw ← lift (call_kwargs (forward l _update_config_keywords) template_vars);
  Call (LoadTemplate [l !!! "template_name"] kw) Ret.

Section netconfig.

(** [__opts__], the options of the running minion. *)
Variable __opts__ : gmap string value.
(** [__salt__['config.merge'](key, default)], which reads the
    process-wide configuration. *)
Variable config_merge : string → value → value.
(** [salt.utils.napalm.default_ret] and [salt.utils.napalm.loaded_ret]. *)
Variable default_ret : value → value.
Variable loaded_ret : value → value → value → value → result value.

(** [x = __salt__['config.merge']('x', x)] *)
Definition merge_local (x : string) (l : gmap string value)
  : gmap string value :=
  <[x := config_merge x (l !!! x)]> l.

Definition managed (args : list value) (kwargs : gmap string value)
  : prog value :=
  '(l, template_vars) ← lift (bind_call managed_params args kwargs);
  let ret := default_ret (l !!! "name") in
  let l := merge_local "test" l in
  let l := merge_local "debug" l in
  let l := merge_local "commit" l in
  let l := merge_local "replace" l in
  let l := merge_local "skip_verify" l in
  let l := merge_local "commit_in" l in
  let l := merge_local "commit_at" l in
  let l := merge_local "revert_in" l in
  let l := merge_local "revert_at" l in
  kw ← lift (call_kwargs (forward l managed_keywords) template_vars);
  config_update_ret ← _update_config [l !!! "template_name"] kw;
  lift (loaded_ret ret config_update_ret (l !!! "test") (l !!! "debug")).

Definition commit_cancelled (name : string) : prog value :=
  let cancelled : value :=
    VDict {[ "result" := VNone; "changes" := VDict ∅; "comment" := VStr "" ]} in
  test ← lift (getitem __opts__ "test");
  if truthy test then
    cancelled ← lift (setitem cancelled "comment"
                        (VStr ("It would cancel commit #" +:+ name)));
    Ret cancelled
  else
    cancelled ← Call (CancelCommit name) Ret;
    cancelled ← lift (setitem cancelled "changes" (VDict ∅));
    Ret cancelled.

Definition commit_confirmed (name : string) : prog value :=
  let confirmed : value :=
    VDict {[ "result" := VNone; "changes" := VDict ∅; "comment" := VStr "" ]} in
  test ← lift (getitem __opts__ "test");
  if truthy test then
    confirmed ← lift (setitem confirmed "comment"
                        (VStr ("It would confirm commit #" +:+ name)));
    Ret confirmed
  else
    confirmed ← Call (ConfirmCommit name) Ret;
    confirmed ← lift (setitem confirmed "changes" (VDict ∅));
    Ret confirmed.

End netconfig.

(** The options [managed] resolves through [config.merge], in source order. *)
Definition option_keys : list string :=
  [ "test"; "debug"; "commit"; "replace"; "skip_verify";
    "commit_in"; "commit_at"; "revert_in"; "revert_at" ].

Definition resolve (cm : string → value → value) (l : gmap string value)
  : gmap string value :=
  foldl (λ l x, merge_local cm x l) l option_keys.

(** ** The collaborators, modelled from the specification

    [net.load_template], [net.cancel_commit], [net.confirm_commit] live in
    [salt/modules/napalm_network.py], and [default_ret], [loaded_ret] in
    [salt/utils/napalm.py]; the state module only calls them. Where a
    property depends on what they do, they are modelled from the
    specification (sections 3, 4.2 to 4.4 and 7), for a device that can
    be reached. *)

(** Modelled from the spec: the lifecycle states of a pending change
    (section 3, PendingChange); the registry is kept by the execution
    module, which is not in the source at hand. *)
Inductive change_state :=
| Scheduled
| AwaitingConfirmation
| Confirmed
| Cancelled
| Reverted.

(** Modelled from the spec: a registry entry (section 3, PendingChange). *)
Record PendingChange := {
  commitId : string;
  state : change_state;
  scheduledAt : option Z;
  revertAt : option Z
}.

(** Modelled from the spec: the device with its running configuration and
    candidate buffer, the registry keyed by commit identifier (terminal
    entries are archived, not removed), and the instant of the call in
    minutes (sections 2 and 3). *)
Record device := {
  running : string;
  candidate : option string;
  registry : gmap string PendingChange;
  now : Z
}.

(** Modelled from the spec: the collaborators that section 1 puts out of
    scope, taken as parameters: the time directive parser of section 4.1,
    the change renderer (template reference, inline source, variables),
    and the device driver's diff and commit (replace or merge, running
    configuration, rendered text). *)
Record collaborators := {
  parse : string → Z → option Z;
  render : value → value → gmap string value → option string;
  diff : bool → string → string → string;
  commit_config : bool → string → string → string
}.

(** Modelled from the spec: the four shapes of a CommitDirective
    (section 3). *)
Inductive CommitDirective :=
| Immediate
| DeferredCommit (commit_instant : Z)
| CommitThenRevert (revert_instant : Z)
| DeferredCommitThenRevert (commit_instant revert_instant : Z).

Definition is_set (v : value) : bool :=
  match v with
  | VNone => false
  | _ => true
  end.

(** Modelled from the spec: one axis of the directive (section 4.2, step
    2): at most one of the relative and the absolute form may be set, and
    the one that is set goes through the parser, anchored at call time. *)
Definition instant (c : collaborators) (now : Z) (v_in v_at : value)
  : result (option Z) :=
  if is_set v_in && is_set v_at then Err ConflictingDirective
  else match (if is_set v_in then v_in else v_at) with
       | VNone => Ok None
       | VStr s =>
           match parse c s now with
           | Some t => Ok (Some t)
           | None => Err InvalidDirective
           end
       | _ => Err InvalidDirective
       end.

(** Modelled from the spec: construction of the CommitDirective from the
    resolved options (section 4.2, step 2). Both forms of an axis set at
    once is a [ConflictingDirective], whatever else the directive holds
    (section 7). The invariant of section 3 is that a revert instant is
    strictly later than the effective commit instant; the spec names no
    error for its violation, [InvalidDirective] stands for it. *)
Definition build_directive (c : collaborators) (now : Z)
    (l : gmap string value) : result CommitDirective :=
  if is_set (l !!! "commit_in") && is_set (l !!! "commit_at")
     || is_set (l !!! "revert_in") && is_set (l !!! "revert_at")
  then Err ConflictingDirective
  else
  commit_instant ← instant c now (l !!! "commit_in") (l !!! "commit_at");
  revert_instant ← instant c now (l !!! "revert_in") (l !!! "revert_at");
  match commit_instant, revert_instant with
  | None, None => Ok Immediate
  | Some t, None => Ok (DeferredCommit t)
  | None, Some r =>
      if bool_decide (now < r)%Z then Ok (CommitThenRevert r)
      else Err InvalidDirective
  | Some t, Some r =>
      if bool_decide (t < r)%Z then Ok (DeferredCommitThenRevert t r)
      else Err InvalidDirective
  end.

(** Modelled from the spec: the declarative surface of section 6 as the
    signature of [net.load_template]: the template reference first, then
    the optional fields; every other keyword is a template variable. *)
Definition load_template_params : params := tail managed_params.

(** Modelled from the spec: the result the Device Committer hands back
    (section 2): whether anything differs, its own verdict, the diff, a
    message, the rendered text, and the commit identifier of a deferred
    or revertible commit. *)
Definition loaded_record (already : bool) (result : value)
    (delta comment text : string) (id : option string) : value :=
  let d : gmap string value :=
    {[ "already_configured" := VBool already; "result" := result;
       "diff" := VStr delta; "comment" := VStr comment;
       "loaded_config" := VStr text ]} in
  VDict (match id with
         | Some i => <["commit_id" := VStr i]> d
         | None => d
         end).

Definition discard (w : device) : device :=
  {| running := running w; candidate := None;
     registry := registry w; now := now w |}.

Definition stage (text : string) (w : device) : device :=
  {| running := running w; candidate := Some text;
     registry := registry w; now := now w |}.

Definition commit_now (c : collaborators) (replace : bool) (text : string)
    (w : device) : device :=
  {| running := commit_config c replace (running w) text; candidate := None;
     registry := registry w; now := now w |}.

Definition register (pc : PendingChange) (w : device) : device :=
  {| running := running w; candidate := candidate w;
     registry := <[commitId pc := pc]> (registry w); now := now w |}.

(** Modelled from the spec: the commit identifier is generated by the
    Device Committer and unique per change (section 3). *)
Definition new_commit_id (w : device) : string :=
  fresh_string "commit" (registry w).

(** Modelled from the spec: section 4.2, steps 2 and 3: the directive is
    constructed, then the template is rendered; a construction error
    aborts before the device is touched, a rendering failure is
    propagated as [TemplateError]. *)
Definition prepare (c : collaborators) (args : list value)
    (kwargs : gmap string value) (w : device)
  : result (gmap string value * CommitDirective * string) :=
  '(l, variables) ← bind_call load_template_params args kwargs;
  d ← build_directive c (now w) l;
  text ← from_option Ok (Err TemplateError)
         (render c (l !!! "template_name") (l !!! "template_source")
            variables);
  Ok (l, d, text).

(** Modelled from the spec: section 4.2, steps 2 to 8, as far as the
    Device Committer and the registry are concerned. With [commit] unset
    the change stays in the candidate buffer. *)
Definition spec_load_template (c : collaborators) (args : list value)
    (kwargs : gmap string value) (w : device) : result value * device :=
  match prepare c args kwargs w with
  | Err e => (Err e, w)
  | Ok (l, d, text) =>
      let replace := truthy (l !!! "replace") in
      let delta := diff c replace (running w) text in
      if bool_decide (delta = "") then
        (Ok (loaded_record true (VBool true) "" "Already configured."
               text None), w)
      else if truthy (l !!! "test") then
        (Ok (loaded_record false VNone delta "Configuration discarded."
               text None), discard w)
      else if negb (truthy (l !!! "commit")) then
        (Ok (loaded_record false (VBool true) delta
               "Configuration staged, not committed." text None),
         stage text w)
      else
        let id := new_commit_id w in
        let scheduled := "Commit #" +:+ id +:+ " scheduled." in
        match d with
        | Immediate =>
            (Ok (loaded_record false (VBool true) delta
                   "Configuration changed." text None),
             commit_now c replace text w)
        | DeferredCommit t =>
            (Ok (loaded_record false VNone delta scheduled text (Some id)),
             register {| commitId := id; state := Scheduled;
                         scheduledAt := Some t; revertAt := None |}
               (stage text w))
        | CommitThenRevert r =>
            (Ok (loaded_record false VNone delta scheduled text (Some id)),
             register {| commitId := id; state := AwaitingConfirmation;
                         scheduledAt := None; revertAt := Some r |}
               (commit_now c replace text w))
        | DeferredCommitThenRevert t r =>
            (Ok (loaded_record false VNone delta scheduled text (Some id)),
             register {| commitId := id; state := Scheduled;
                         scheduledAt := Some t; revertAt := Some r |}
               (stage text w))
        end
  end.

(** Modelled from the spec: the outcome of a cancel or confirm call
    (section 6): a verdict and a message. [UnknownOrTerminalCommit] is
    surfaced as a failed outcome (section 4.3). *)
Definition verdict (ok : bool) (comment : string) : value :=
  VDict {[ "result" := VBool ok; "comment" := VStr comment ]}.

Definition set_state (id : string) (s : change_state) (w : device) : device :=
  {| running := running w; candidate := candidate w;
     registry := alter (λ pc, {| commitId := commitId pc; state := s;
                                  scheduledAt := scheduledAt pc;
                                  revertAt := revertAt pc |}) id (registry w);
     now := now w |}.

(** Modelled from the spec: the cancel operation on the registry (section
    4.3): absent or terminal is a failed outcome, [Scheduled] is aborted
    and becomes [Cancelled], and a change that is already applied is
    rejected as [InvalidTransition]. *)
Definition spec_cancel_commit (name : string) (w : device)
  : result value * device :=
  match state <$> registry w !! name with
  | Some Scheduled =>
      (Ok (verdict true ("Commit #" +:+ name +:+ " cancelled.")),
       discard (set_state name Cancelled w))
  | Some AwaitingConfirmation => (Err InvalidTransition, w)
  | _ => (Ok (verdict false "UnknownOrTerminalCommit"), w)
  end.

(** Modelled from the spec: the confirm operation on the registry
    (section 4.4): only [AwaitingConfirmation] can be confirmed, every
    other case is [UnknownOrTerminalCommit]. *)
Definition spec_confirm_commit (name : string) (w : device)
  : result value * device :=
  match state <$> registry w !! name with
  | Some AwaitingConfirmation =>
      (Ok (verdict true ("Commit #" +:+ name +:+ " confirmed.")),
       set_state name Confirmed w)
  | _ => (Ok (verdict false "UnknownOrTerminalCommit"), w)
  end.

(** Modelled from the spec: the execution functions behind [__salt__]. *)
Definition spec_handler (c : collaborators) : handler device :=
  λ call w,
    match call with
    | LoadTemplate args kwargs => spec_load_template c args kwargs w
    | CancelCommit name => spec_cancel_commit name w
    | ConfirmCommit name => spec_confirm_commit name w
    end.

(** Modelled from the spec: [salt.utils.napalm.default_ret], the outcome
    record of section 6 before anything is known. *)
Definition spec_default_ret (name : value) : value :=
  VDict {[ "name" := name; "changes" := VDict ∅; "result" := VBool false;
           "comment" := VStr ""; "already_configured" := VBool false ]}.

(** Modelled from the spec: [salt.utils.napalm.loaded_ret], which maps the
    committer's result to the outcome record (section 4.2, steps 5 to 8):
    nothing to do is a success with no diff; a dry run and a pending
    commit are undetermined; otherwise the committer's verdict stands.
    The rendered text is included when debug is requested. *)
Definition spec_loaded_ret (ret loaded test debug : value) : result value :=
  match ret, loaded with
  | VDict r, VDict ld =>
      let already := truthy (ld !!! "already_configured") in
      let changes : gmap string value :=
        if truthy (ld !!! "diff") then {[ "diff" := ld !!! "diff" ]} else ∅ in
      let result :=
        if already then VBool true
        else if truthy test then VNone
        else if bool_decide (is_Some (ld !! "commit_id")) then VNone
        else ld !!! "result" in
      let r := <["already_configured" := VBool already]> r in
      let r := <["changes" := VDict changes]> r in
      let r := <["comment" := ld !!! "comment"]> r in
      let r := <["result" := result]> r in
      Ok (VDict (if truthy debug
                 then <["loaded_config" := ld !!! "loaded_config"]> r
                 else r))
  | _, _ => Err TypeError
  end.

(** ** Sample data

    A concrete minion, device and collaborators on which the statements
    below are exercised. *)

Fixpoint minutes_from (s : string) (acc : Z) : option Z :=
  match s with
  | EmptyString => Some acc
  | String a s' =>
      let d := (Z.of_nat (Ascii.nat_of_ascii a) - 48)%Z in
      if bool_decide (0 ≤ d ≤ 9)%Z then minutes_from s' (10 * acc + d)%Z
      else None
  end.

(** Understands the bare-integer directives only ([5] is five minutes);
    the template source is its own rendering; a replace installs the
    text, a merge appends it. *)
Definition sample_collaborators : collaborators :=
  {| parse := λ s now,
       if bool_decide (s = "") then None
       else (λ m, now + m)%Z <$> minutes_from s 0;
     render := λ ref src _,
       match src with
       | VStr s => Some s
       | _ => None
       end;
     diff := λ _ running text,
       if bool_decide (running = text) then "" else "+" +:+ text;
     commit_config := λ replace running text,
       if replace then text else running +:+ text |}.

Definition sample_device : device :=
  {| running := "hostname r1";
     candidate := None;
     registry :=
       {[ "c1" := {| commitId := "c1"; state := AwaitingConfirmation;
                     scheduledAt := None; revertAt := Some 130%Z |};
          "c2" := {| commitId := "c2"; state := Scheduled;
                     scheduledAt := Some 160%Z; revertAt := None |};
          "c3" := {| commitId := "c3"; state := Confirmed;
                     scheduledAt := None; revertAt := Some 90%Z |} ]};
     now := 100 |}.

Definition dry_opts : gmap string value := {[ "test" := VBool true ]}.
Definition live_opts : gmap string value := {[ "test" := VBool false ]}.

(** No process-wide configuration: every merge falls back on the value
    it is given. *)
Definition no_overrides : string → value → value := λ _ d, d.

(** The call of the module's documentation, with a revert window. *)
Definition sample_call : gmap string value :=
  {[ "name" := VStr "ntp_peers_example";
     "template_name" := VStr "salt://ntp.jinja";
     "template_source" := VStr "hostname r2";
     "revert_in" := VStr "5";
     "debug" := VBool true;
     "peers" := VList [VStr "192.168.0.1"; VStr "192.168.0.1"] ]}.

Definition call_plain : gmap string value :=
  {[ "name" := VStr "bgp_config_example";
     "template_name" := VStr "/absolute/path/to/bgp_neighbors.mako" ]}.

Definition call_test_off : gmap string value :=
  <["test" := VBool false]> call_plain.

Definition conflicting_call : gmap string value :=
  {[ "name" := VStr "whole_config_example";
     "template_name" := VStr "salt://path/to/complete_config.jinja";
     "template_source" := VStr "hostname r2";
     "commit_in" := VStr "5";
     "commit_at" := VStr "1am" ]}.

Definition test_on : gmap string value := {[ "test" := VBool true ]}.

(** A call whose template is the running configuration of the sample
    device, with a revert window. *)
Definition unchanged_call : gmap string value :=
  {[ "name" := VStr "hostname_example";
     "template_name" := VStr "salt://hostname.jinja";
     "template_source" := VStr "hostname r1";
     "revert_in" := VStr "5" ]}.

(** A process-wide configuration that only sets a key [managed] does not
    ask for. *)
Definition unrelated_overrides : string → value → value :=
  λ key d, if bool_decide (key = "template_engine") then VStr "mako" else d.

(** ** Notions used in the statements *)

(** The outcome of a dry-run cancel and of a dry-run confirm. *)
Definition would_cancel (name : string) : value :=
  VDict {[ "result" := VNone; "changes" := VDict ∅;
           "comment" := VStr ("It would cancel commit #" +:+ name) ]}.

Definition would_confirm (name : string) : value :=
  VDict {[ "result" := VNone; "changes" := VDict ∅;
           "comment" := VStr ("It would confirm commit #" +:+ name) ]}.

(** An outcome record that reports no diff. *)
Definition empty_changes (v : value) : Prop :=
  ∃ d, v = VDict d ∧ d !! "changes" = Some (VDict ∅).

(** The execution function answers this call with a record. *)
Definition answers_record {W} (h : handler W) (c : call) (w : W) : Prop :=
  ∃ d, (h c w).1 = Ok (VDict d).

(** The outcome of a cancel or confirm call that went through: the
    verdict of the execution function with its changes emptied. *)
Definition settled (ok : bool) (comment : string) : value :=
  VDict {[ "result" := VBool ok; "comment" := VStr comment;
           "changes" := VDict ∅ ]}.

(** The four scheduling arguments of [managed]. *)
Definition scheduling_keys : list string :=
  [ "commit_in"; "commit_at"; "revert_in"; "revert_at" ].

(** The keyword arguments [managed] builds for [_update_config] from its
    frame [l], after the merges, and its catch-all [tv]. *)
Definition committer_kwargs (cm : string → value → value)
    (l tv : gmap string value) : gmap string value :=
  list_to_map (forward (resolve cm l) managed_keywords) ∪ tv.

(** What [managed] does with the answer [r] of [net.load_template]. *)
Definition finish (cm : string → value → value) (dr : value → value)
    (lr : value → value → value → value → result value)
    (l : gmap string value) (r : value) : result value :=
  lr (dr (l !!! "name")) r (cm "test" (l !!! "test"))
     (cm "debug" (l !!! "debug")).

(** The three-tier precedence, for a merge function that reads the
    process-wide configuration [cfg]: called by keyword, [managed] passes
    on the per-call argument when one is given, else the process-wide
    value when there is one, else the compiled default. *)
Definition three_tier_precedence
    (merge : gmap string value → string → value → value) : Prop :=
  ∀ (cfg kwargs : gmap string value) dr lr key,
    key ∈ option_keys →
    is_Some (kwargs !! "name") → is_Some (kwargs !! "template_name") →
    ∃ args kw k,
      managed (merge cfg) dr lr [] kwargs = Call (LoadTemplate args kw) k
      ∧ kw !! key
        = Some (default (default (defaults managed_params !!! key)
                           (cfg !! key))
                  (kwargs !! key)).

(** Both forms of one axis of the directive are set. *)
Definition conflicting (l : gmap string value) : Prop :=
  (is_set (l !!! "commit_in") = true ∧ is_set (l !!! "commit_at") = true)
  ∨ (is_set (l !!! "revert_in") = true ∧ is_set (l !!! "revert_at") = true).

(** A call with conflicting directives fails as [ConflictingDirective]
    without any call to an execution function. *)
Definition aborts_before_contact (cm : string → value → value)
    (dr : value → value) (lr : value → value → value → value → result value)
    (args : list value) (kwargs : gmap string value) : Prop :=
  ∀ l tv, bind_call managed_params args kwargs = Ok (l, tv) →
    conflicting (resolve cm l) →
    ∀ W (h : handler W) (w : W),
      returned (run h (managed cm dr lr args kwargs) w)
      = Err ConflictingDirective
      ∧ trace (run h (managed cm dr lr args kwargs) w) = [].

(** The directive the committer constructs and the text the renderer
    produces for a call of [managed], if the call gets that far. *)
Definition prepared (c : collaborators) (cm : string → value → value)
    (args : list value) (kwargs : gmap string value) (w : device)
  : option (CommitDirective * string) :=
  match bind_call managed_params args kwargs with
  | Ok (l, tv) =>
      match prepare c [l !!! "template_name"] (committer_kwargs cm l tv) w with
      | Ok (_, d, text) => Some (d, text)
      | Err _ => None
      end
  | Err _ => None
  end.

(** The frame of a call of [managed] after the nine merges (empty when
    the call does not bind). *)
Definition resolved (cm : string → value → value) (args : list value)
    (kwargs : gmap string value) : gmap string value :=
  match bind_call managed_params args kwargs with
  | Ok (l, _) => resolve cm l
  | Err _ => ∅
  end.

(** ** The call protocol: what a successful binding looks like *)

(** Closed decidable facts about the parameter lists, by evaluation. *)
Ltac by_compute := apply (bool_decide_unpack _); vm_compute; exact I.

Lemma bind_positional_named ps args pos p :
  bind_positional ps args = Ok pos → is_Some (pos !! p) → p ∈ ps.*1.
Proof.
  revert args pos. induction ps as [|[q d] ps IH]; intros [|a args] pos; simpl.
  1-3: intros Hb Hs; simplify_eq; rewrite lookup_empty in Hs; by destruct Hs.
  destruct (bind_positional ps args) as [m|] eqn:E; simpl; [|done].
  intros [= <-]. rewrite lookup_insert. case_decide.
  - subst. intros _. apply list_elem_of_here.
  - intros Hs. apply list_elem_of_further. by eapply IH.
Qed.

Lemma fill_defaults_lookup ps given m p :
  fill_defaults ps given = Ok m →
  m !! p = if decide (p ∈ ps.*1) then (given ∪ defaults ps) !! p else None.
Proof.
  revert m. induction ps as [|[q d] ps IH]; intros m; simpl.
  - intros [= <-]. by rewrite lookup_empty.
  - destruct (fill_defaults ps given) as [rest|] eqn:E; simpl; [|done].
    specialize (IH rest eq_refl).
    assert (Hq : (given ∪ defaults ((q, d) :: ps)) !! q = given !! q ∪ d).
    { rewrite lookup_union. unfold defaults. rewrite lookup_omap. simpl.
      by rewrite lookup_insert_eq. }
    assert (Hne : q ≠ p →
      (given ∪ defaults ((q, d) :: ps)) !! p = (given ∪ defaults ps) !! p).
    { intros Hn. rewrite !lookup_union. unfold defaults. rewrite !lookup_omap.
      simpl. by rewrite lookup_insert_ne. }
    intros Hm. destruct (decide (q = p)) as [->|Hn].
    + rewrite decide_True by apply list_elem_of_here. rewrite Hq.
      destruct (given !! p) as [v|], d as [v'|]; simplify_eq;
        by rewrite lookup_insert_eq.
    + assert (m !! p = rest !! p) as ->.
      { destruct (given !! q) as [v|], d as [v'|]; simplify_eq;
          by rewrite lookup_insert_ne. }
      rewrite IH, Hne by done.
      destruct (decide (p ∈ ps.*1)).
      * by rewrite decide_True by by apply list_elem_of_further.
      * rewrite decide_False; [done|]. rewrite elem_of_cons.
        intros [?|?]; [congruence|done].
Qed.

Lemma fill_defaults_is_Some ps given m p :
  fill_defaults ps given = Ok m → p ∈ ps.*1 → is_Some (m !! p).
Proof.
  revert m. induction ps as [|[q d] ps IH]; intros m; simpl.
  - intros _ Hp. by apply not_elem_of_nil in Hp.
  - destruct (fill_defaults ps given) as [rest|] eqn:E; simpl; [|done].
    intros Hm Hp. destruct (decide (q = p)) as [->|Hn].
    + destruct (given !! p) as [v|], d as [v'|]; simplify_eq;
        rewrite lookup_insert_eq; eauto.
    + apply elem_of_cons in Hp as [?|Hp]; [congruence|].
      destruct (given !! q) as [v|], d as [v'|]; simplify_eq;
        rewrite lookup_insert_ne by done; eauto.
Qed.

Lemma bind_call_Ok ps args kwargs l tv :
  bind_call ps args kwargs = Ok (l, tv) →
  ∃ pos, bind_positional ps args = Ok pos
       ∧ pos ##ₘ filter (named ps) kwargs
       ∧ fill_defaults ps (pos ∪ filter (named ps) kwargs) = Ok l
       ∧ tv = filter (λ kv, ¬ named ps kv) kwargs.
Proof.
  unfold bind_call. destruct (bind_positional ps args) as [pos|]; simpl; [|done].
  case_decide; [|done].
  destruct (fill_defaults ps _) as [l'|] eqn:E; simpl; [|done].
  intros [= <- <-]. by exists pos.
Qed.
Lemma forward_fst l names : (forward l names).*1 = names.
Proof.
  unfold forward. induction names as [|q names IH]; [done|].
  simpl. by f_equal.
Qed.

Lemma list_to_map_forward (l : gmap string value) names p :
  (list_to_map (forward l names) : gmap string value) !! p
  = if decide (p ∈ names) then Some (l !!! p) else None.
Proof.
  induction names as [|q names IH]; simpl.
  - by rewrite lookup_empty.
  - rewrite lookup_insert. destruct (decide (q = p)) as [->|Hn].
    + by rewrite decide_True by apply list_elem_of_here.
    + rewrite IH. destruct (decide (p ∈ names)).
      * by rewrite decide_True by by apply list_elem_of_further.
      * rewrite decide_False; [done|]. rewrite elem_of_cons.
        intros [?|?]; [congruence|done].
Qed.

Lemma catch_all_lookup ps (kwargs : gmap string value) p :
  filter (λ kv, ¬ named ps kv) kwargs !! p
  = if decide (p ∈ ps.*1) then None else kwargs !! p.
Proof.
  destruct (kwargs !! p) as [v|] eqn:E.
  - case_decide.
    + apply map_lookup_filter_None. right. intros v' ?. unfold named. simpl. tauto.
    + apply map_lookup_filter_Some. done.
  - assert (filter (λ kv, ¬ named ps kv) kwargs !! p = None) as ->.
    { apply map_lookup_filter_None. by left. }
    by case_decide.
Qed.

Lemma named_lookup ps (kwargs : gmap string value) p :
  filter (named ps) kwargs !! p
  = if decide (p ∈ ps.*1) then kwargs !! p else None.
Proof.
  destruct (kwargs !! p) as [v|] eqn:E.
  - case_decide.
    + apply map_lookup_filter_Some. done.
    + apply map_lookup_filter_None. right. intros v' ?. unfold named. simpl. tauto.
  - assert (filter (named ps) kwargs !! p = None) as ->.
    { apply map_lookup_filter_None. by left. }
    by case_decide.
Qed.

Lemma call_kwargs_Ok explicit (star : gmap string value) :
  Forall (λ p, star !! p = None) explicit.*1 →
  call_kwargs explicit star = Ok (list_to_map explicit ∪ star).
Proof.
  intros H. unfold call_kwargs. rewrite decide_True; [done|].
  eapply Forall_impl; [exact H|]. intros p. simpl. by rewrite not_elem_of_dom.
Qed.

Lemma fill_defaults_total ps given :
  Forall (λ pd, is_Some (given !! pd.1 ∪ pd.2)) ps →
  ∃ m, fill_defaults ps given = Ok m.
Proof.
  induction 1 as [|[p d] ps Hp _ [m IH]]; simpl; [by eexists|].
  rewrite IH. simpl in *.
  destruct (given !! p) as [v|], d as [v'|]; eauto. by destruct Hp.
Qed.

Lemma defaults_not_named ps p : p ∉ ps.*1 → defaults ps !! p = None.
Proof.
  intros Hp. unfold defaults. rewrite lookup_omap.
  by rewrite (not_elem_of_list_to_map_1 ps p).
Qed.

Lemma lookup_total_of_lookup (m : gmap string value) p v :
  m !! p = Some v → m !!! p = v.
Proof. intros H. by rewrite lookup_total_alt, H. Qed.

Lemma is_Some_union_r (x : option value) v : is_Some (x ∪ Some v).
Proof. destruct x; simpl; eauto. Qed.

Lemma is_Some_union_l (y z : option value) v : is_Some (Some v ∪ y ∪ z).
Proof. destruct y, z; simpl; eauto. Qed.

Lemma bind_call_intro ps args kwargs pos l :
  bind_positional ps args = Ok pos →
  pos ##ₘ filter (named ps) kwargs →
  fill_defaults ps (pos ∪ filter (named ps) kwargs) = Ok l →
  bind_call ps args kwargs = Ok (l, filter (λ kv, ¬ named ps kv) kwargs).
Proof.
  intros Hpos Hdisj Hl. unfold bind_call. rewrite Hpos.
  cbn [mbind result_bind]. rewrite decide_True by done. by rewrite Hl.
Qed.

Lemma _update_config_names :
  _update_config_params.*1 = "template_name" :: _update_config_keywords.
Proof. reflexivity. Qed.

Lemma template_name_not_keyword : "template_name" ∉ _update_config_keywords.
Proof. by_compute. Qed.

(** A call [_update_config(tn, **kw)] binds: the template name
    positionally, every keyword of [kw] it declares, its defaults for the
    others, and the rest of [kw] in [template_vars]. *)
Lemma _update_config_binds tn (kw : gmap string value) :
  kw !! "template_name" = None →
  ∃ l, bind_call _update_config_params [tn] kw
       = Ok (l, filter (λ kv, ¬ named _update_config_params kv) kw)
     ∧ l !!! "template_name" = tn
     ∧ ∀ p, p ∈ _update_config_keywords →
         l !! p = Some (l !!! p)
         ∧ l !! p = kw !! p ∪ defaults _update_config_params !! p.
Proof.
  intros Htn.
  set (pos := <["template_name" := tn]> (∅ : gmap string value)).
  set (nm := filter (named _update_config_params) kw).
  assert (Hnm : nm !! "template_name" = None).
  { unfold nm. rewrite named_lookup, Htn. by case_decide. }
  destruct (fill_defaults_total _update_config_params (pos ∪ nm)) as [l Hl].
  { repeat constructor; simpl; try apply is_Some_union_r.
    rewrite lookup_union. unfold pos. rewrite lookup_insert_eq.
    apply is_Some_union_l. }
  exists l. split; [|split].
  - apply (bind_call_intro _ _ _ pos l); [done| |done].
    by apply map_disjoint_insert_l_2; [|apply map_disjoint_empty_l].
  - apply lookup_total_of_lookup.
    rewrite (fill_defaults_lookup _ _ _ _ Hl), _update_config_names.
    rewrite decide_True by apply list_elem_of_here.
    rewrite !lookup_union. unfold pos. rewrite lookup_insert_eq, Hnm.
    by destruct (defaults _ !! _).
  - intros p Hp.
    assert (Hin : p ∈ _update_config_params.*1)
      by (rewrite _update_config_names; by apply list_elem_of_further).
    destruct (fill_defaults_is_Some _ _ _ _ Hl Hin) as [v Hv].
    split; [by rewrite (lookup_total_of_lookup _ _ _ Hv)|].
    rewrite (fill_defaults_lookup _ _ _ p Hl), decide_True by done.
    rewrite !lookup_union. f_equal. unfold pos, nm.
    rewrite lookup_insert_ne, lookup_empty, named_lookup, decide_True by
      (try done; intros <-; by apply template_name_not_keyword in Hp).
    by rewrite (left_id None _).
Qed.

(** [_update_config] hands [net.load_template] everything it was given,
    completed with its own defaults. *)
Lemma _update_config_forwards tn (kw : gmap string value) :
  kw !! "template_name" = None →
  _update_config [tn] kw
  = Call (LoadTemplate [tn] (kw ∪ defaults _update_config_params)) Ret.
Proof.
  intros Htn. unfold _update_config.
  destruct (_update_config_binds tn kw Htn) as (l & -> & Htnl & Hlook).
  cbn [mbind prog_bind prog_bind_def lift].
  set (tv := filter (λ kv, ¬ named _update_config_params kv) kw).
  rewrite call_kwargs_Ok.
  2:{ rewrite forward_fst. apply Forall_forall. intros p Hp. unfold tv.
      rewrite catch_all_lookup, decide_True; [done|].
      rewrite _update_config_names. by apply list_elem_of_further. }
  cbn [mbind prog_bind prog_bind_def lift]. rewrite Htnl. f_equal. f_equal.
  apply map_eq. intros p.
  rewrite lookup_union, list_to_map_forward. unfold tv.
  rewrite catch_all_lookup, _update_config_names, lookup_union.
  destruct (decide (p ∈ _update_config_keywords)) as [Hp|Hp].
  - rewrite decide_True by by apply list_elem_of_further.
    destruct (Hlook p Hp) as [H1 H2]. by rewrite <-H1, H2, (right_id None _).
  - destruct (decide (p = "template_name")) as [->|Hn].
    + rewrite decide_True by apply list_elem_of_here. by rewrite Htn.
    + rewrite decide_False by (rewrite elem_of_cons; intros [?|?]; done).
      rewrite defaults_not_named; [by rewrite (left_id None _), (right_id None _)|].
      rewrite _update_config_names, elem_of_cons. intros [?|?]; done.
Qed.

Lemma foldl_merge_lookup cm keys (l : gmap string value) p :
  NoDup keys →
  foldl (λ l x, merge_local cm x l) l keys !!! p
  = if decide (p ∈ keys) then cm p (l !!! p) else l !!! p.
Proof.
  intros Hnd. revert l. induction Hnd as [|k keys Hk Hnd IH]; intros l; [done|].
  simpl. rewrite IH. unfold merge_local at 1 2.
  destruct (decide (p = k)) as [->|Hn].
  - rewrite decide_False by done. rewrite decide_True by apply list_elem_of_here.
    by rewrite lookup_total_insert_eq.
  - rewrite lookup_total_insert_ne by done. destruct (decide (p ∈ keys)).
    + by rewrite decide_True by by apply list_elem_of_further.
    + rewrite decide_False; [done|]. rewrite elem_of_cons. intros [?|?]; done.
Qed.

Lemma resolve_lookup cm (l : gmap string value) p :
  resolve cm l !!! p
  = if decide (p ∈ option_keys) then cm p (l !!! p) else l !!! p.
Proof. apply foldl_merge_lookup. by_compute. Qed.

Lemma managed_keywords_named :
  Forall (λ p, p ∈ managed_params.*1) managed_keywords.
Proof. by_compute. Qed.

Lemma _update_config_keywords_managed :
  Forall (λ p, p ∈ managed_keywords) _update_config_keywords.
Proof. by_compute. Qed.

Lemma defaults_update_config_keyword p d :
  defaults _update_config_params !! p = Some d → p ∈ managed_keywords.
Proof.
  intros Hd. destruct (decide (p ∈ _update_config_params.*1)) as [Hp|Hp].
  - rewrite _update_config_names in Hp. apply elem_of_cons in Hp as [->|Hp].
    + by vm_compute in Hd.
    + by apply (proj1 (Forall_forall _ _) _update_config_keywords_managed).
  - by rewrite defaults_not_named in Hd.
Qed.

Lemma resolve_unfold cm (l : gmap string value) :
  merge_local cm "revert_at"
    (merge_local cm "revert_in"
       (merge_local cm "commit_at"
          (merge_local cm "commit_in"
             (merge_local cm "skip_verify"
                (merge_local cm "replace"
                   (merge_local cm "commit"
                      (merge_local cm "debug" (merge_local cm "test" l))))))))
  = resolve cm l.
Proof. reflexivity. Qed.

Lemma is_Ok_inv {A} (r : result A) : is_Ok r → ∃ a, r = Ok a.
Proof. destruct r; [by eexists|done]. Qed.

Lemma managed_catch_all args kwargs l tv p :
  bind_call managed_params args kwargs = Ok (l, tv) →
  tv !! p = if decide (p ∈ managed_params.*1) then None else kwargs !! p.
Proof.
  intros Hb. destruct (bind_call_Ok _ _ _ _ _ Hb) as (pos & _ & _ & _ & ->).
  apply catch_all_lookup.
Qed.

Lemma committer_kwargs_keyword cm (l tv : gmap string value) p :
  p ∈ managed_keywords →
  committer_kwargs cm l tv !! p = Some (resolve cm l !!! p).
Proof.
  intros Hp. unfold committer_kwargs.
  rewrite lookup_union, list_to_map_forward, decide_True by done.
  by destruct (tv !! p).
Qed.

Lemma committer_kwargs_other cm (l tv : gmap string value) p :
  p ∉ managed_keywords → committer_kwargs cm l tv !! p = tv !! p.
Proof.
  intros Hp. unfold committer_kwargs.
  rewrite lookup_union, list_to_map_forward, decide_False by done.
  by rewrite (left_id None _).
Qed.

Lemma committer_kwargs_complete cm (l tv : gmap string value) :
  committer_kwargs cm l tv ∪ defaults _update_config_params
  = committer_kwargs cm l tv.
Proof.
  apply map_eq. intros p. rewrite lookup_union.
  destruct (defaults _update_config_params !! p) as [d|] eqn:Hd;
    [|by rewrite (right_id None _)].
  apply defaults_update_config_keyword in Hd.
  by rewrite committer_kwargs_keyword.
Qed.

(** [managed], once its arguments are bound, is one call of
    [_update_config] followed by [loaded_ret]. *)
Lemma managed_calls_update_config cm dr lr args kwargs l tv :
  bind_call managed_params args kwargs = Ok (l, tv) →
  managed cm dr lr args kwargs
  = _update_config [l !!! "template_name"] (committer_kwargs cm l tv)
    ≫= λ r, lift (finish cm dr lr l r).
Proof.
  intros Hb. unfold managed. rewrite Hb.
  cbn [mbind prog_bind prog_bind_def lift].
  rewrite resolve_unfold.
  rewrite call_kwargs_Ok.
  2:{ rewrite forward_fst. eapply Forall_impl; [apply managed_keywords_named|].
      intros p Hp. simpl. by rewrite (managed_catch_all _ _ _ _ p Hb), decide_True. }
  cbn [mbind prog_bind prog_bind_def lift]. unfold finish, committer_kwargs.
  rewrite !resolve_lookup.
  rewrite (decide_False (P := "template_name" ∈ option_keys)) by by_compute.
  rewrite !decide_True by by_compute.
  reflexivity.
Qed.

(** ... and so one call of [net.load_template], with the keyword
    arguments that [managed] built. *)
Lemma managed_bound cm dr lr args kwargs l tv :
  bind_call managed_params args kwargs = Ok (l, tv) →
  managed cm dr lr args kwargs
  = Call (LoadTemplate [l !!! "template_name"] (committer_kwargs cm l tv))
         (λ r, lift (finish cm dr lr l r)).
Proof.
  intros Hb. rewrite (managed_calls_update_config _ _ _ _ _ _ _ Hb).
  rewrite _update_config_forwards.
  2:{ rewrite committer_kwargs_other by by_compute.
      rewrite (managed_catch_all _ _ _ _ _ Hb). by rewrite decide_True by by_compute. }
  by rewrite committer_kwargs_complete.
Qed.

Lemma managed_unbound cm dr lr args kwargs e :
  bind_call managed_params args kwargs = Err e →
  managed cm dr lr args kwargs = Throw e.
Proof. intros Hb. unfold managed. by rewrite Hb. Qed.

Lemma managed_run {W} (h : handler W) cm dr lr args kwargs l tv w :
  bind_call managed_params args kwargs = Ok (l, tv) →
  run h (managed cm dr lr args kwargs) w
  = let c := LoadTemplate [l !!! "template_name"] (committer_kwargs cm l tv) in
    match h c w with
    | (Ok r, w') => Outcome (finish cm dr lr l r) w' [c]
    | (Err e, w') => Outcome (Err e) w' [c]
    end.
Proof.
  intros Hb. rewrite (managed_bound _ _ _ _ _ _ _ Hb). simpl.
  destruct (h _ w) as [[r|e] w']; [|done].
  by destruct (finish cm dr lr l r).
Qed.

(** The frame of a bound call: each parameter holds the argument given
    for it, positionally or by keyword, and its default otherwise. *)
Lemma bind_call_locals ps args kwargs l tv :
  bind_call ps args kwargs = Ok (l, tv) →
  ∃ pos, bind_positional ps args = Ok pos
       ∧ ∀ p, p ∈ ps.*1 →
           l !! p = Some (l !!! p)
           ∧ l !! p = (pos ∪ kwargs ∪ defaults ps) !! p.
Proof.
  intros Hb. destruct (bind_call_Ok _ _ _ _ _ Hb) as (pos & Hpos & _ & Hl & _).
  exists pos. split; [done|]. intros p Hp.
  destruct (fill_defaults_is_Some _ _ _ _ Hl Hp) as [v Hv].
  split; [by rewrite (lookup_total_of_lookup _ _ _ Hv)|].
  rewrite (fill_defaults_lookup _ _ _ p Hl), decide_True by done.
  by rewrite !lookup_union, named_lookup, decide_True.
Qed.

(** ** Cancel and confirm *)

Lemma getitem_Some (d : gmap string value) k v :
  d !! k = Some v → getitem d k = Ok v.
Proof. intros H. unfold getitem. by rewrite H. Qed.

Lemma commit_cancelled_test opts name t :
  opts !! "test" = Some t → truthy t = true →
  commit_cancelled opts name = Ret (would_cancel name).
Proof.
  intros Ht Htr. unfold commit_cancelled. rewrite (getitem_Some _ _ _ Ht).
  cbn [mbind prog_bind prog_bind_def lift]. by rewrite Htr.
Qed.

Lemma commit_confirmed_test opts name t :
  opts !! "test" = Some t → truthy t = true →
  commit_confirmed opts name = Ret (would_confirm name).
Proof.
  intros Ht Htr. unfold commit_confirmed. rewrite (getitem_Some _ _ _ Ht).
  cbn [mbind prog_bind prog_bind_def lift]. by rewrite Htr.
Qed.

Lemma commit_cancelled_live {W} (h : handler W) opts name t w :
  opts !! "test" = Some t → truthy t = false →
  run h (commit_cancelled opts name) w
  = match h (CancelCommit name) w with
    | (Ok v, w') =>
        Outcome (setitem v "changes" (VDict ∅)) w' [CancelCommit name]
    | (Err e, w') => Outcome (Err e) w' [CancelCommit name]
    end.
Proof.
  intros Ht Htr. unfold commit_cancelled. rewrite (getitem_Some _ _ _ Ht).
  cbn [mbind prog_bind prog_bind_def lift]. rewrite Htr. simpl.
  destruct (h (CancelCommit name) w) as [[v|e] w']; [|done].
  by destruct (setitem v "changes" (VDict ∅)).
Qed.

Lemma commit_confirmed_live {W} (h : handler W) opts name t w :
  opts !! "test" = Some t → truthy t = false →
  run h (commit_confirmed opts name) w
  = match h (ConfirmCommit name) w with
    | (Ok v, w') =>
        Outcome (setitem v "changes" (VDict ∅)) w' [ConfirmCommit name]
    | (Err e, w') => Outcome (Err e) w' [ConfirmCommit name]
    end.
Proof.
  intros Ht Htr. unfold commit_confirmed. rewrite (getitem_Some _ _ _ Ht).
  cbn [mbind prog_bind prog_bind_def lift]. rewrite Htr. simpl.
  destruct (h (ConfirmCommit name) w) as [[v|e] w']; [|done].
  by destruct (setitem v "changes" (VDict ∅)).
Qed.

(** C3: in dry-run mode ([__opts__['test']] set) [commit_cancelled]
    returns the outcome whose comment says that it would cancel commit
    #name, with result [None] and empty changes; whatever the execution
    functions would do, none is called ([net.cancel_commit] in particular)
    and the state of the device and registry is left as it was. *)
Theorem commit_cancelled_dry_run opts name t :
  opts !! "test" = Some t → truthy t = true →
  commit_cancelled opts name = Ret (would_cancel name)
  ∧ ∀ W (h : handler W) (w : W),
      run h (commit_cancelled opts name) w
      = Outcome (Ok (would_cancel name)) w [].
Proof.
  intros Ht Htr. rewrite (commit_cancelled_test _ _ _ Ht Htr). done.
Qed.

Lemma commit_cancelled_dry_run_witness :
  dry_opts !! "test" = Some (VBool true) ∧ truthy (VBool true) = true
  ∧ commit_cancelled dry_opts "20180726083540640360"
    = Ret (would_cancel "20180726083540640360")
  ∧ ∀ W (h : handler W) (w : W),
      run h (commit_cancelled dry_opts "20180726083540640360") w
      = Outcome (Ok (would_cancel "20180726083540640360")) w [].
Proof.
  split; [reflexivity|]. split; [reflexivity|].
  exact (commit_cancelled_dry_run dry_opts "20180726083540640360" (VBool true)
           eq_refl eq_refl).
Defined.

(** C4: in dry-run mode [commit_confirmed] returns the outcome whose
    comment only states the intent (it would confirm commit #name), with
    result [None] and empty changes; no execution function is called
    ([net.confirm_commit] in particular) and nothing is changed. *)
Theorem commit_confirmed_dry_run opts name t :
  opts !! "test" = Some t → truthy t = true →
  commit_confirmed opts name = Ret (would_confirm name)
  ∧ ∀ W (h : handler W) (w : W),
      run h (commit_confirmed opts name) w
      = Outcome (Ok (would_confirm name)) w [].
Proof.
  intros Ht Htr. rewrite (commit_confirmed_test _ _ _ Ht Htr). done.
Qed.

Lemma commit_confirmed_dry_run_witness :
  dry_opts !! "test" = Some (VBool true) ∧ truthy (VBool true) = true
  ∧ commit_confirmed dry_opts "20180726083540640360"
    = Ret (would_confirm "20180726083540640360")
  ∧ ∀ W (h : handler W) (w : W),
      run h (commit_confirmed dry_opts "20180726083540640360") w
      = Outcome (Ok (would_confirm "20180726083540640360")) w [].
Proof.
  split; [reflexivity|]. split; [reflexivity|].
  exact (commit_confirmed_dry_run dry_opts "20180726083540640360" (VBool true)
           eq_refl eq_refl).
Defined.

Lemma setitem_changes_empty v v' :
  setitem v "changes" (VDict ∅) = Ok v' → empty_changes v'.
Proof.
  destruct v; simpl; try done. intros [= <-]. eexists. split; [done|].
  by rewrite lookup_insert_eq.
Qed.

Lemma would_cancel_empty_changes name : empty_changes (would_cancel name).
Proof. by eexists. Qed.

Lemma would_confirm_empty_changes name : empty_changes (would_confirm name).
Proof. by eexists. Qed.

(** Whatever [commit_cancelled] and [commit_confirmed] return, in any
    environment, is a record with empty changes. *)
Lemma commit_cancelled_changes {W} (h : handler W) opts name w v :
  returned (run h (commit_cancelled opts name) w) = Ok v → empty_changes v.
Proof.
  destruct (opts !! "test") as [t|] eqn:Ht.
  - destruct (truthy t) eqn:Htr.
    + rewrite (commit_cancelled_test _ _ _ Ht Htr). simpl. intros [= <-].
      apply would_cancel_empty_changes.
    + rewrite (commit_cancelled_live h _ _ _ _ Ht Htr).
      destruct (h (CancelCommit name) w) as [[v0|e] w']; simpl; [|done].
      apply setitem_changes_empty.
  - unfold commit_cancelled, getitem. by rewrite Ht.
Qed.

Lemma commit_confirmed_changes {W} (h : handler W) opts name w v :
  returned (run h (commit_confirmed opts name) w) = Ok v → empty_changes v.
Proof.
  destruct (opts !! "test") as [t|] eqn:Ht.
  - destruct (truthy t) eqn:Htr.
    + rewrite (commit_confirmed_test _ _ _ Ht Htr). simpl. intros [= <-].
      apply would_confirm_empty_changes.
    + rewrite (commit_confirmed_live h _ _ _ _ Ht Htr).
      destruct (h (ConfirmCommit name) w) as [[v0|e] w']; simpl; [|done].
      apply setitem_changes_empty.
  - unfold commit_confirmed, getitem. by rewrite Ht.
Qed.

Lemma commit_cancelled_returns {W} (h : handler W) opts name w :
  is_Some (opts !! "test") → answers_record h (CancelCommit name) w →
  ∃ v, returned (run h (commit_cancelled opts name) w) = Ok v.
Proof.
  intros [t Ht] [d Hd]. destruct (truthy t) eqn:Htr.
  - rewrite (commit_cancelled_test _ _ _ Ht Htr). by eexists.
  - rewrite (commit_cancelled_live h _ _ _ _ Ht Htr).
    destruct (h (CancelCommit name) w) as [r w']. simpl in Hd. subst r.
    by eexists.
Qed.

Lemma commit_confirmed_returns {W} (h : handler W) opts name w :
  is_Some (opts !! "test") → answers_record h (ConfirmCommit name) w →
  ∃ v, returned (run h (commit_confirmed opts name) w) = Ok v.
Proof.
  intros [t Ht] [d Hd]. destruct (truthy t) eqn:Htr.
  - rewrite (commit_confirmed_test _ _ _ Ht Htr). by eexists.
  - rewrite (commit_confirmed_live h _ _ _ _ Ht Htr).
    destruct (h (ConfirmCommit name) w) as [r w']. simpl in Hd. subst r.
    by eexists.
Qed.

(** C5: for every commit identifier and every record the execution
    functions answer with, [commit_cancelled] and [commit_confirmed]
    return an outcome, and its changes are empty: neither reports a
    diff. *)
Theorem cancel_confirm_no_changes {W} (h : handler W) opts name w :
  is_Some (opts !! "test") →
  answers_record h (CancelCommit name) w →
  answers_record h (ConfirmCommit name) w →
  (∃ v, returned (run h (commit_cancelled opts name) w) = Ok v
        ∧ empty_changes v)
  ∧ (∃ v, returned (run h (commit_confirmed opts name) w) = Ok v
          ∧ empty_changes v).
Proof.
  intros Ht Hc Hf. split.
  - destruct (commit_cancelled_returns h opts name w Ht Hc) as [v Hv].
    exists v. split; [done|]. by eapply commit_cancelled_changes.
  - destruct (commit_confirmed_returns h opts name w Ht Hf) as [v Hv].
    exists v. split; [done|]. by eapply commit_confirmed_changes.
Qed.

Lemma cancel_confirm_no_changes_witness :
  is_Some (live_opts !! "test")
  ∧ answers_record (spec_handler sample_collaborators) (CancelCommit "c2")
      sample_device
  ∧ answers_record (spec_handler sample_collaborators) (ConfirmCommit "c2")
      sample_device
  ∧ (∃ v, returned (run (spec_handler sample_collaborators)
                      (commit_cancelled live_opts "c2") sample_device) = Ok v
          ∧ empty_changes v)
  ∧ (∃ v, returned (run (spec_handler sample_collaborators)
                      (commit_confirmed live_opts "c2") sample_device) = Ok v
          ∧ empty_changes v).
Proof.
  assert (H1 : is_Some (live_opts !! "test")) by (eexists; reflexivity).
  assert (H2 : answers_record (spec_handler sample_collaborators)
                 (CancelCommit "c2") sample_device)
    by (eexists; vm_compute; reflexivity).
  assert (H3 : answers_record (spec_handler sample_collaborators)
                 (ConfirmCommit "c2") sample_device)
    by (eexists; vm_compute; reflexivity).
  split; [exact H1|]. split; [exact H2|]. split; [exact H3|].
  exact (cancel_confirm_no_changes (spec_handler sample_collaborators)
           live_opts "c2" sample_device H1 H2 H3).
Defined.

(** ** Cancel and confirm against the registry of the specification *)

Lemma set_state_lookup id s w pc :
  registry w !! id = Some pc →
  state <$> registry (set_state id s w) !! id = Some s.
Proof. intros H. simpl. by rewrite lookup_alter_eq, H. Qed.

(** C6 (against the registry modelled from the specification): a cancel
    that is not a dry run, on the identifier of a change that is
    [AwaitingConfirmation], is rejected with [InvalidTransition] and
    leaves device and registry as they were (nothing is reverted); on a
    [Scheduled] change it succeeds and the entry becomes [Cancelled]; on
    an entry in any other state it fails, so it succeeds on [Scheduled]
    only. *)
Theorem cancel_applied_change_rejected c opts name t w pc :
  opts !! "test" = Some t → truthy t = false →
  registry w !! name = Some pc →
  run (spec_handler c) (commit_cancelled opts name) w
  = match state pc with
    | AwaitingConfirmation =>
        Outcome (Err InvalidTransition) w [CancelCommit name]
    | Scheduled =>
        Outcome (Ok (settled true ("Commit #" +:+ name +:+ " cancelled.")))
          (discard (set_state name Cancelled w)) [CancelCommit name]
    | _ =>
        Outcome (Ok (settled false "UnknownOrTerminalCommit")) w
          [CancelCommit name]
    end
  ∧ state <$> registry (discard (set_state name Cancelled w)) !! name
    = Some Cancelled.
Proof.
  intros Ht Htr Hpc. split; [|by eapply set_state_lookup].
  rewrite (commit_cancelled_live _ _ _ _ _ Ht Htr).
  simpl. unfold spec_cancel_commit. rewrite Hpc. simpl.
  by destruct (state pc).
Qed.

Lemma cancel_applied_change_rejected_witness :
  live_opts !! "test" = Some (VBool false) ∧ truthy (VBool false) = false
  ∧ state <$> registry sample_device !! "c1" = Some AwaitingConfirmation
  ∧ run (spec_handler sample_collaborators)
      (commit_cancelled live_opts "c1") sample_device
    = Outcome (Err InvalidTransition) sample_device [CancelCommit "c1"].
Proof.
  split; [reflexivity|]. split; [reflexivity|]. split; [reflexivity|].
  apply (cancel_applied_change_rejected sample_collaborators live_opts "c1"
           (VBool false) sample_device
           {| commitId := "c1"; state := AwaitingConfirmation;
              scheduledAt := None; revertAt := Some 130%Z |});
    reflexivity.
Defined.

(** Without dry run, an identifier that names no entry fails as
    [UnknownOrTerminalCommit]. *)
Lemma cancel_unknown_commit_fails c opts name t w :
  opts !! "test" = Some t → truthy t = false →
  registry w !! name = None →
  run (spec_handler c) (commit_cancelled opts name) w
  = Outcome (Ok (settled false "UnknownOrTerminalCommit")) w
      [CancelCommit name].
Proof.
  intros Ht Htr Hpc. rewrite (commit_cancelled_live _ _ _ _ _ Ht Htr).
  simpl. unfold spec_cancel_commit. by rewrite Hpc.
Qed.

Lemma confirm_unknown_commit_fails c opts name t w :
  opts !! "test" = Some t → truthy t = false →
  registry w !! name = None →
  run (spec_handler c) (commit_confirmed opts name) w
  = Outcome (Ok (settled false "UnknownOrTerminalCommit")) w
      [ConfirmCommit name].
Proof.
  intros Ht Htr Hpc. rewrite (commit_confirmed_live _ _ _ _ _ Ht Htr).
  simpl. unfold spec_confirm_commit. by rewrite Hpc.
Qed.

(** C9: in dry-run mode cancel and confirm do not validate the commit
    identifier. For every name and every environment, also a registry in
    which the name is unknown or names a terminal change, they return the
    would-cancel and would-confirm outcomes, whose result is [None]; the
    lookup of [net.cancel_commit] and [net.confirm_commit] is never
    reached (the trace of calls is empty and the state is untouched), so
    no [UnknownOrTerminalCommit] failure can come back. *)
Theorem dry_run_skips_validation {W} (h : handler W) opts name t w :
  opts !! "test" = Some t → truthy t = true →
  ∃ dc df,
    run h (commit_cancelled opts name) w = Outcome (Ok (VDict dc)) w []
    ∧ run h (commit_confirmed opts name) w = Outcome (Ok (VDict df)) w []
    ∧ dc !! "result" = Some VNone
    ∧ dc !! "comment" = Some (VStr ("It would cancel commit #" +:+ name))
    ∧ df !! "result" = Some VNone
    ∧ df !! "comment" = Some (VStr ("It would confirm commit #" +:+ name)).
Proof.
  intros Ht Htr.
  rewrite (commit_cancelled_test _ _ _ Ht Htr),
          (commit_confirmed_test _ _ _ Ht Htr).
  by eexists _, _.
Qed.

Lemma dry_run_skips_validation_witness :
  dry_opts !! "test" = Some (VBool true) ∧ truthy (VBool true) = true
  ∧ registry sample_device !! "c9" = None
  ∧ state <$> registry sample_device !! "c3" = Some Confirmed
  ∧ ∃ dc df,
      run (spec_handler sample_collaborators)
        (commit_cancelled dry_opts "c9") sample_device
      = Outcome (Ok (VDict dc)) sample_device []
      ∧ run (spec_handler sample_collaborators)
          (commit_confirmed dry_opts "c9") sample_device
        = Outcome (Ok (VDict df)) sample_device []
      ∧ dc !! "result" = Some VNone
      ∧ dc !! "comment" = Some (VStr ("It would cancel commit #" +:+ "c9"))
      ∧ df !! "result" = Some VNone
      ∧ df !! "comment" = Some (VStr ("It would confirm commit #" +:+ "c9")).
Proof.
  split; [reflexivity|]. split; [reflexivity|]. split; [reflexivity|].
  split; [reflexivity|].
  exact (dry_run_skips_validation (spec_handler sample_collaborators) dry_opts
           "c9" (VBool true) sample_device eq_refl eq_refl).
Defined.

(** ** The apply operation *)

Lemma Forall_elem {A} (P : A → Prop) (l : list A) x :
  Forall P l → x ∈ l → P x.
Proof. intros H. by apply Forall_forall. Qed.

Lemma option_keys_keywords : Forall (λ p, p ∈ managed_keywords) option_keys.
Proof. by_compute. Qed.

Lemma scheduling_keys_options : Forall (λ p, p ∈ option_keys) scheduling_keys.
Proof. by_compute. Qed.

Lemma frame_value (l : gmap string value) (given dflt : gmap string value) p :
  l !! p = Some (l !!! p) → l !! p = (given ∪ dflt) !! p →
  l !!! p = default (dflt !!! p) (given !! p).
Proof.
  intros H1 H2. rewrite H1, lookup_union in H2.
  destruct (given !! p) as [v|]; simpl in *.
  - destruct (dflt !! p); injection H2 as H2; by rewrite H2.
  - rewrite (left_id None _) in H2. symmetry. by apply lookup_total_of_lookup.
Qed.

(** A call by keyword that gives [name] and [template_name] binds. *)
Lemma managed_keyword_call (kwargs : gmap string value) :
  is_Some (kwargs !! "name") → is_Some (kwargs !! "template_name") →
  ∃ l tv, bind_call managed_params [] kwargs = Ok (l, tv)
        ∧ ∀ p, p ∈ managed_params.*1 →
            l !!! p = default (defaults managed_params !!! p) (kwargs !! p).
Proof.
  intros Hn Ht.
  destruct (fill_defaults_total managed_params
              (∅ ∪ filter (named managed_params) kwargs)) as [l Hl].
  { assert (Hreq : ∀ p, p ∈ managed_params.*1 → is_Some (kwargs !! p) →
              is_Some ((∅ ∪ filter (named managed_params) kwargs) !! p ∪ None)).
    { intros p Hp [v Hv].
      rewrite (left_id_L ∅ _), named_lookup, decide_True, Hv by done.
      by eexists. }
    apply Forall_cons; split; [apply Hreq; [by_compute|done]|].
    apply Forall_cons; split; [apply Hreq; [by_compute|done]|].
    repeat (apply Forall_cons; split; [apply is_Some_union_r|]).
    by apply Forall_nil. }
  assert (Hb : bind_call managed_params [] kwargs
               = Ok (l, filter (λ kv, ¬ named managed_params kv) kwargs)).
  { apply (bind_call_intro _ _ _ ∅ l); [done|apply map_disjoint_empty_l|done]. }
  eexists _, _. split; [exact Hb|]. intros p Hp.
  destruct (bind_call_locals _ _ _ _ _ Hb) as (pos & [= <-] & Hloc).
  destruct (Hloc p Hp) as [H1 H2]. rewrite (left_id_L ∅ _) in H2.
  by apply frame_value.
Qed.

(** C1, as amended: each of the nine options reaches the committer as
    [config.merge(key, a)], where [a] is the per-call argument when one
    is given (positionally or by keyword) and the compiled default
    otherwise. The per-call argument is the fallback of the merge, and
    the process-wide configuration is consulted on every call. *)
Theorem managed_option_resolution cm dr lr args kwargs :
  is_Ok (bind_call managed_params args kwargs) →
  ∃ pos a kw k,
    bind_positional managed_params args = Ok pos
    ∧ managed cm dr lr args kwargs = Call (LoadTemplate a kw) k
    ∧ ∀ key, key ∈ option_keys →
        kw !! key
        = Some (cm key (default (defaults managed_params !!! key)
                          ((pos ∪ kwargs) !! key))).
Proof.
  intros [[l tv] Hb]%is_Ok_inv.
  destruct (bind_call_locals _ _ _ _ _ Hb) as (pos & Hpos & Hloc).
  exists pos, [l !!! "template_name"], (committer_kwargs cm l tv),
    (λ r, lift (finish cm dr lr l r)).
  split; [done|]. split; [by apply managed_bound|].
  intros key Hkey.
  assert (Hkw := Forall_elem _ _ _ option_keys_keywords Hkey).
  assert (Hnm := Forall_elem _ _ _ managed_keywords_named Hkw).
  rewrite committer_kwargs_keyword, resolve_lookup, decide_True by done.
  destruct (Hloc key Hnm) as [H1 H2].
  by rewrite (frame_value l (pos ∪ kwargs) (defaults managed_params) key).
Qed.

Lemma managed_option_resolution_witness :
  is_Ok (bind_call managed_params [] call_test_off)
  ∧ ∃ pos a kw k,
      bind_positional managed_params [] = Ok pos
      ∧ managed no_overrides spec_default_ret spec_loaded_ret [] call_test_off
        = Call (LoadTemplate a kw) k
      ∧ ∀ key, key ∈ option_keys →
          kw !! key
          = Some (no_overrides key
                    (default (defaults managed_params !!! key)
                       ((pos ∪ call_test_off) !! key))).
Proof.
  assert (H : is_Ok (bind_call managed_params [] call_test_off))
    by (vm_compute; exact I).
  split; [exact H|].
  exact (managed_option_resolution no_overrides spec_default_ret
           spec_loaded_ret [] call_test_off H).
Defined.

(** C1 as stated fails for every merge function: [managed] cannot tell
    an argument given with the value of its compiled default from an
    argument left out, so with [test] switched on process-wide either the
    explicit [test=False] is overridden or the process-wide value is
    ignored when [test] is left out. *)
Lemma three_tier_precedence_fails : ¬ ∃ merge, three_tier_precedence merge.
Proof.
  intros [merge H].
  assert (Hpass : ∀ kwargs,
            is_Some (kwargs !! "name") → is_Some (kwargs !! "template_name") →
            ∀ args kw k,
              managed (merge test_on) spec_default_ret spec_loaded_ret []
                kwargs = Call (LoadTemplate args kw) k →
              kw !! "test"
              = Some (merge test_on "test"
                        (default (VBool false) (kwargs !! "test")))).
  { intros kwargs Hn Ht args kw k.
    destruct (managed_keyword_call kwargs Hn Ht) as (l & tv & Hb & Hl).
    rewrite (managed_bound _ _ _ _ _ _ _ Hb). intros [= <- <- _].
    rewrite committer_kwargs_keyword, resolve_lookup, decide_True by by_compute.
    rewrite Hl by by_compute.
    assert (defaults managed_params !!! "test" = VBool false) as ->
      by (vm_compute; reflexivity).
    reflexivity. }
  assert (Hs : ∀ (o : option value) v, o = Some v → is_Some o)
    by (intros o v ->; by eexists).
  assert (Hn1 : call_test_off !! "name" = Some (VStr "bgp_config_example"))
    by (vm_compute; reflexivity).
  assert (Ht1 : call_test_off !! "template_name"
                = Some (VStr "/absolute/path/to/bgp_neighbors.mako"))
    by (vm_compute; reflexivity).
  assert (Hn2 : call_plain !! "name" = Some (VStr "bgp_config_example"))
    by (vm_compute; reflexivity).
  assert (Ht2 : call_plain !! "template_name"
                = Some (VStr "/absolute/path/to/bgp_neighbors.mako"))
    by (vm_compute; reflexivity).
  assert (Hv1 : call_test_off !! "test" = Some (VBool false))
    by (vm_compute; reflexivity).
  assert (Hv2 : call_plain !! "test" = None) by (vm_compute; reflexivity).
  assert (Hcfg : test_on !! "test" = Some (VBool true))
    by (vm_compute; reflexivity).
  assert (Hkey : "test" ∈ option_keys) by by_compute.
  destruct (H test_on call_test_off spec_default_ret spec_loaded_ret "test"
              Hkey (Hs _ _ Hn1) (Hs _ _ Ht1)) as (a1 & kw1 & k1 & E1 & V1).
  assert (W1 := Hpass call_test_off (Hs _ _ Hn1) (Hs _ _ Ht1) _ _ _ E1).
  rewrite V1, Hv1 in W1. cbn [from_option id] in W1.
  destruct (H test_on call_plain spec_default_ret spec_loaded_ret "test"
              Hkey (Hs _ _ Hn2) (Hs _ _ Ht2)) as (a2 & kw2 & k2 & E2 & V2).
  assert (W2 := Hpass call_plain (Hs _ _ Hn2) (Hs _ _ Ht2) _ _ _ E2).
  rewrite V2, Hv2, Hcfg in W2. cbn [from_option id] in W2.
  rewrite <-W1 in W2. discriminate W2.
Qed.

Lemma scheduling_keys_keywords :
  Forall (λ p, p ∈ managed_keywords) scheduling_keys.
Proof. by_compute. Qed.

Lemma load_template_keywords_named :
  Forall (λ p, p ∈ load_template_params.*1) managed_keywords.
Proof. by_compute. Qed.

Lemma template_name_not_managed_keyword : "template_name" ∉ managed_keywords.
Proof. by_compute. Qed.

(** The committer of the specification binds the call that [managed]
    makes: every keyword of the call site is a parameter of its own. *)
Lemma load_template_binds tn (kw : gmap string value) :
  kw !! "template_name" = None →
  ∃ l' tv', bind_call load_template_params [tn] kw = Ok (l', tv')
          ∧ ∀ p v, p ∈ managed_keywords → kw !! p = Some v → l' !!! p = v.
Proof.
  intros Htn.
  set (pos := <["template_name" := tn]> (∅ : gmap string value)).
  set (nm := filter (named load_template_params) kw).
  assert (Hnm : nm !! "template_name" = None).
  { unfold nm. rewrite named_lookup, Htn. by case_decide. }
  destruct (fill_defaults_total load_template_params (pos ∪ nm)) as [l' Hl].
  { cbv [load_template_params managed_params tail].
    repeat constructor; simpl; try apply is_Some_union_r.
    rewrite lookup_union. unfold pos. rewrite lookup_insert_eq.
    apply is_Some_union_l. }
  exists l', (filter (λ kv, ¬ named load_template_params kv) kw). split.
  - apply (bind_call_intro _ _ _ pos l'); [done| |done].
    by apply map_disjoint_insert_l_2; [|apply map_disjoint_empty_l].
  - intros p v Hp Hv. apply lookup_total_of_lookup.
    assert (Hin := Forall_elem _ _ _ load_template_keywords_named Hp).
    rewrite (fill_defaults_lookup _ _ _ p Hl), decide_True by done.
    rewrite !lookup_union. unfold pos, nm.
    rewrite lookup_insert_ne, lookup_empty, named_lookup, decide_True, Hv by
      (try done; intros <-; by apply template_name_not_managed_keyword in Hp).
    by destruct (defaults _ !! _).
Qed.

Lemma conflicting_directive_not_built c now (l : gmap string value) :
  conflicting l → build_directive c now l = Err ConflictingDirective.
Proof.
  unfold build_directive. intros [[H1 H2]|[H1 H2]]; rewrite H1, H2.
  - reflexivity.
  - by rewrite orb_true_r.
Qed.

(** C2, as amended: a call in which both [commit_in] and [commit_at], or
    both [revert_in] and [revert_at], are set after the merges fails with
    [ConflictingDirective] and leaves device and registry as they were.
    [managed] does not make the check: it calls [net.load_template], once,
    with the four values as resolved, and the committer (modelled from the
    specification) rejects the directive before it touches the device. *)
Theorem conflicting_directive_rejected_by_committer c cm dr lr args kwargs w :
  conflicting (resolved cm args kwargs) →
  ∃ a kw,
    run (spec_handler c) (managed cm dr lr args kwargs) w
    = Outcome (Err ConflictingDirective) w [LoadTemplate a kw]
    ∧ Forall (λ key, kw !! key = Some (resolved cm args kwargs !!! key))
        scheduling_keys.
Proof.
  unfold resolved.
  destruct (bind_call managed_params args kwargs) as [[l tv]|e] eqn:Hb.
  2:{ intros [[H _]|[H _]]; by rewrite lookup_total_empty in H. }
  intros Hconf.
  exists [l !!! "template_name"], (committer_kwargs cm l tv).
  assert (Hsched : ∀ key, key ∈ scheduling_keys →
            committer_kwargs cm l tv !! key = Some (resolve cm l !!! key)).
  { intros key Hkey. apply committer_kwargs_keyword.
    by apply (Forall_elem _ _ _ scheduling_keys_keywords). }
  split; [|by apply Forall_forall].
  rewrite (managed_run _ _ _ _ _ _ _ _ _ Hb). cbv zeta. cbn [spec_handler].
  destruct (load_template_binds (l !!! "template_name")
              (committer_kwargs cm l tv)) as (l' & tv' & Hb' & Hl').
  { rewrite committer_kwargs_other by by_compute.
    rewrite (managed_catch_all _ _ _ _ _ Hb).
    by rewrite decide_True by by_compute. }
  assert (Hbuild : build_directive c (now w) l' = Err ConflictingDirective).
  { apply conflicting_directive_not_built.
    assert (Heq : ∀ key, key ∈ scheduling_keys →
              l' !!! key = resolve cm l !!! key).
    { intros key Hkey. apply Hl'; [|by apply Hsched].
      by apply (Forall_elem _ _ _ scheduling_keys_keywords). }
    unfold conflicting. rewrite !Heq by by_compute. exact Hconf. }
  unfold spec_load_template, prepare. rewrite Hb'.
  cbn [mbind result_bind]. by rewrite Hbuild.
Qed.

Lemma conflicting_directive_rejected_by_committer_witness :
  conflicting (resolved no_overrides [] conflicting_call)
  ∧ ∃ a kw,
      run (spec_handler sample_collaborators)
        (managed no_overrides spec_default_ret spec_loaded_ret []
           conflicting_call) sample_device
      = Outcome (Err ConflictingDirective) sample_device [LoadTemplate a kw]
      ∧ Forall (λ key, kw !! key
                       = Some (resolved no_overrides [] conflicting_call
                               !!! key))
          scheduling_keys.
Proof.
  assert (H : conflicting (resolved no_overrides [] conflicting_call))
    by (left; split; vm_compute; reflexivity).
  split; [exact H|].
  exact (conflicting_directive_rejected_by_committer sample_collaborators
           no_overrides spec_default_ret spec_loaded_ret [] conflicting_call
           sample_device H).
Defined.

(** C2 as stated fails: a call with both [commit_in] and [commit_at]
    set does reach [net.load_template]. *)
Lemma conflicting_call_reaches_committer :
  ¬ aborts_before_contact no_overrides spec_default_ret spec_loaded_ret []
      conflicting_call.
Proof.
  intros H.
  destruct (managed_keyword_call conflicting_call) as (l & tv & Hb & Hl);
    [by eexists|by eexists|].
  assert (Hin : l !!! "commit_in" = VStr "5").
  { rewrite Hl by by_compute. vm_compute. reflexivity. }
  assert (Hat : l !!! "commit_at" = VStr "1am").
  { rewrite Hl by by_compute. vm_compute. reflexivity. }
  destruct (H l tv Hb) with (W := unit) (h := λ (_ : call) (u : unit), (Ok VNone, u))
    (w := tt) as [_ Htrace].
  { left. rewrite !resolve_lookup, !decide_True by by_compute.
    unfold no_overrides. rewrite Hin, Hat. split; reflexivity. }
  rewrite (managed_run _ _ _ _ _ _ _ _ _ Hb) in Htrace.
  cbv beta zeta iota in Htrace. discriminate Htrace.
Qed.

Lemma managed_keywords_cover :
  Forall (λ p, p ∈ _update_config_keywords ∨ p ∈ scheduling_keys)
    managed_keywords.
Proof. by_compute. Qed.

Lemma managed_keywords_split p :
  p ∈ managed_keywords ↔ p ∈ _update_config_keywords ∨ p ∈ scheduling_keys.
Proof.
  split.
  - apply (Forall_elem _ _ _ managed_keywords_cover).
  - intros [Hp|Hp].
    + by apply (Forall_elem _ _ _ _update_config_keywords_managed).
    + by apply (Forall_elem _ _ _ scheduling_keys_keywords).
Qed.

Lemma scheduling_keys_undeclared :
  Forall (λ p, p ∉ _update_config_params.*1) scheduling_keys.
Proof. by_compute. Qed.

(** C8: the four scheduling arguments are no parameters of
    [_update_config]. In the call [managed] makes, they are bound in its
    [**template_vars] catch-all, next to the template variables of the
    user, and from there they reach [net.load_template] among its keyword
    arguments, with the values [managed] resolved. *)
Theorem scheduling_arguments_in_template_vars cm dr lr args kwargs :
  is_Ok (bind_call managed_params args kwargs) →
  Forall (λ p, p ∉ _update_config_params.*1) scheduling_keys
  ∧ ∃ l tv l',
      bind_call managed_params args kwargs = Ok (l, tv)
      ∧ managed cm dr lr args kwargs
        = (_update_config [l !!! "template_name"] (committer_kwargs cm l tv)
           ≫= λ r, lift (finish cm dr lr l r))
      ∧ bind_call _update_config_params [l !!! "template_name"]
          (committer_kwargs cm l tv)
        = Ok (l', list_to_map (forward (resolve cm l) scheduling_keys) ∪ tv)
      ∧ _update_config [l !!! "template_name"] (committer_kwargs cm l tv)
        = Call (LoadTemplate [l !!! "template_name"] (committer_kwargs cm l tv))
            Ret
      ∧ Forall (λ p, committer_kwargs cm l tv !! p = Some (cm p (l !!! p)))
          scheduling_keys.
Proof.
  intros [[l tv] Hb]%is_Ok_inv. split; [apply scheduling_keys_undeclared|].
  assert (Htn : committer_kwargs cm l tv !! "template_name" = None).
  { rewrite committer_kwargs_other by by_compute.
    rewrite (managed_catch_all _ _ _ _ _ Hb). by rewrite decide_True by by_compute. }
  destruct (_update_config_binds (l !!! "template_name") _ Htn)
    as (l' & Hb' & _ & _).
  exists l, tv, l'. split; [done|].
  split; [by apply managed_calls_update_config|]. split; [|split].
  - rewrite Hb'. f_equal. f_equal. apply map_eq. intros p.
    rewrite catch_all_lookup, lookup_union, list_to_map_forward.
    destruct (decide (p ∈ scheduling_keys)) as [Hs|Hs].
    + rewrite decide_False
        by apply (Forall_elem _ _ _ scheduling_keys_undeclared Hs).
      rewrite committer_kwargs_keyword
        by (apply managed_keywords_split; by right).
      by destruct (tv !! p).
    + rewrite (left_id None _).
      destruct (decide (p ∈ _update_config_params.*1)) as [Hu|Hu]; [|].
      * rewrite (managed_catch_all _ _ _ _ _ Hb), decide_True; [done|].
        rewrite _update_config_names in Hu. apply elem_of_cons in Hu as [->|Hu].
        -- by_compute.
        -- apply (Forall_elem _ _ _ managed_keywords_named).
           apply managed_keywords_split. by left.
      * apply committer_kwargs_other. rewrite managed_keywords_split.
        intros [Hk|Hk]; [|done]. apply Hu. rewrite _update_config_names.
        by apply list_elem_of_further.
  - rewrite _update_config_forwards by done.
    by rewrite committer_kwargs_complete.
  - apply Forall_forall. intros key Hkey.
    assert (Hopt := Forall_elem _ _ _ scheduling_keys_options Hkey).
    assert (Hkw := Forall_elem _ _ _ option_keys_keywords Hopt).
    by rewrite committer_kwargs_keyword, resolve_lookup, decide_True.
Qed.

Lemma scheduling_arguments_in_template_vars_witness :
  is_Ok (bind_call managed_params [] sample_call)
  ∧ Forall (λ p, p ∉ _update_config_params.*1) scheduling_keys
  ∧ ∃ l tv l',
      bind_call managed_params [] sample_call = Ok (l, tv)
      ∧ managed no_overrides spec_default_ret spec_loaded_ret [] sample_call
        = (_update_config [l !!! "template_name"]
             (committer_kwargs no_overrides l tv)
           ≫= λ r, lift (finish no_overrides spec_default_ret spec_loaded_ret
                           l r))
      ∧ bind_call _update_config_params [l !!! "template_name"]
          (committer_kwargs no_overrides l tv)
        = Ok (l', list_to_map (forward (resolve no_overrides l)
                                 scheduling_keys) ∪ tv)
      ∧ _update_config [l !!! "template_name"]
          (committer_kwargs no_overrides l tv)
        = Call (LoadTemplate [l !!! "template_name"]
                  (committer_kwargs no_overrides l tv)) Ret
      ∧ Forall (λ p, committer_kwargs no_overrides l tv !! p
                     = Some (no_overrides p (l !!! p)))
          scheduling_keys.
Proof.
  assert (H : is_Ok (bind_call managed_params [] sample_call))
    by (vm_compute; exact I).
  split; [exact H|].
  exact (scheduling_arguments_in_template_vars no_overrides spec_default_ret
           spec_loaded_ret [] sample_call H).
Defined.

Lemma forward_ext (l1 l2 : gmap string value) names :
  Forall (λ p, l1 !!! p = l2 !!! p) names → forward l1 names = forward l2 names.
Proof.
  induction 1 as [|p names Hp _ IH]; [done|].
  change (forward l1 (p :: names)) with ((p, l1 !!! p) :: forward l1 names).
  change (forward l2 (p :: names)) with ((p, l2 !!! p) :: forward l2 names).
  by rewrite Hp, IH.
Qed.

Lemma resolve_agree cm1 cm2 (l : gmap string value) p :
  (∀ key d, key ∈ option_keys → cm1 key d = cm2 key d) →
  resolve cm1 l !!! p = resolve cm2 l !!! p.
Proof.
  intros Hag. rewrite !resolve_lookup. case_decide; [by apply Hag|done].
Qed.

(** C10: [managed] reads the process-wide configuration at the nine
    option keys only. Two configurations whose merges agree on these keys
    give the same run: the same call of [net.load_template] with the same
    arguments, and the same treatment of its answer. Every other keyword
    reaches the committer with the value of the frame (the per-call
    argument, or the compiled default when none is given), and every
    template variable as the caller gave it. *)
Theorem managed_reads_option_keys_only cm1 cm2 dr lr args kwargs :
  (∀ key d, key ∈ option_keys → cm1 key d = cm2 key d) →
  is_Ok (bind_call managed_params args kwargs) →
  managed cm1 dr lr args kwargs = managed cm2 dr lr args kwargs
  ∧ ∃ l tv pos kw k,
      bind_call managed_params args kwargs = Ok (l, tv)
      ∧ bind_positional managed_params args = Ok pos
      ∧ managed cm1 dr lr args kwargs
        = Call (LoadTemplate [l !!! "template_name"] kw) k
      ∧ (∀ p, p ∈ managed_params.*1 →
           l !!! p = default (defaults managed_params !!! p)
                       ((pos ∪ kwargs) !! p))
      ∧ (∀ p, p ∈ managed_keywords → p ∉ option_keys →
           kw !! p = Some (l !!! p))
      ∧ (∀ p, p ∉ managed_params.*1 → kw !! p = kwargs !! p).
Proof.
  intros Hag [[l tv] Hb]%is_Ok_inv.
  destruct (bind_call_locals _ _ _ _ _ Hb) as (pos & Hpos & Hloc).
  split.
  - rewrite !(managed_bound _ _ _ _ _ _ _ Hb). unfold committer_kwargs, finish.
    rewrite (forward_ext (resolve cm1 l) (resolve cm2 l)).
    2:{ apply Forall_forall. intros p _. by apply resolve_agree. }
    by rewrite !(Hag _ _) by by_compute.
  - exists l, tv, pos, (committer_kwargs cm1 l tv),
      (λ r, lift (finish cm1 dr lr l r)).
    split; [done|]. split; [done|]. split; [by apply managed_bound|].
    split; [|split].
    + intros p Hp. destruct (Hloc p Hp) as [H1 H2]. by apply frame_value.
    + intros p Hp Hno.
      by rewrite committer_kwargs_keyword, resolve_lookup, decide_False.
    + intros p Hp. rewrite committer_kwargs_other.
      * by rewrite (managed_catch_all _ _ _ _ _ Hb), decide_False.
      * intros Hk. by apply Hp, (Forall_elem _ _ _ managed_keywords_named).
Qed.

Lemma managed_reads_option_keys_only_witness :
  (∀ key d, key ∈ option_keys →
     no_overrides key d = unrelated_overrides key d)
  ∧ is_Ok (bind_call managed_params [] sample_call)
  ∧ managed no_overrides spec_default_ret spec_loaded_ret [] sample_call
    = managed unrelated_overrides spec_default_ret spec_loaded_ret []
        sample_call.
Proof.
  assert (H1 : ∀ key d, key ∈ option_keys →
                 no_overrides key d = unrelated_overrides key d).
  { intros key d Hkey. unfold no_overrides, unrelated_overrides.
    destruct (bool_decide_reflect (key = "template_engine")) as [->|]; [|done].
    exfalso. revert Hkey. by_compute. }
  assert (H2 : is_Ok (bind_call managed_params [] sample_call))
    by (vm_compute; exact I).
  split; [exact H1|]. split; [exact H2|].
  exact (proj1 (managed_reads_option_keys_only no_overrides unrelated_overrides
                  spec_default_ret spec_loaded_ret [] sample_call H1 H2)).
Defined.

(** ** Applying what is already there, against the committer of the
    specification *)

Lemma loaded_ret_already name text test debug :
  ∃ o, spec_loaded_ret (spec_default_ret name)
         (loaded_record true (VBool true) "" "Already configured." text None)
         test debug = Ok (VDict o)
     ∧ o !! "already_configured" = Some (VBool true)
     ∧ o !! "result" = Some (VBool true)
     ∧ o !! "changes" = Some (VDict ∅)
     ∧ o !! "comment" = Some (VStr "Already configured.").
Proof.
  unfold spec_loaded_ret, spec_default_ret, loaded_record.
  eexists. split; [reflexivity|].
  destruct (truthy debug); repeat split; vm_compute; reflexivity.
Qed.

Lemma load_template_already c a kw w l d :
  (∀ replace s, diff c replace s s = "") →
  prepare c a kw w = Ok (l, d, running w) →
  spec_load_template c a kw w
  = (Ok (loaded_record true (VBool true) "" "Already configured."
           (running w) None), w).
Proof.
  intros Hdiff Hp. unfold spec_load_template. rewrite Hp, Hdiff.
  by rewrite bool_decide_eq_true_2.
Qed.

(** C7 (against the committer, registry and outcome mapping modelled from
    the specification, with a diff that is empty on identical texts):
    when the rendered text is identical to the running configuration,
    [managed] returns an outcome that is already configured, succeeded,
    with empty changes; device and registry are as before, so no pending
    entry is created, whatever the shape [d] of the directive; and the
    same call again gives the same outcome. *)
Theorem managed_already_applied c cm args kwargs w d :
  (∀ replace s, diff c replace s s = "") →
  prepared c cm args kwargs w = Some (d, running w) →
  let apply := managed cm spec_default_ret spec_loaded_ret args kwargs in
  ∃ o a kw,
    run (spec_handler c) apply w
    = Outcome (Ok (VDict o)) w [LoadTemplate a kw]
    ∧ o !! "already_configured" = Some (VBool true)
    ∧ o !! "result" = Some (VBool true)
    ∧ o !! "changes" = Some (VDict ∅)
    ∧ o !! "comment" = Some (VStr "Already configured.")
    ∧ run (spec_handler c) apply (final (run (spec_handler c) apply w))
      = run (spec_handler c) apply w.
Proof.
  intros Hdiff Hprep apply. unfold prepared in Hprep.
  destruct (bind_call managed_params args kwargs) as [[l tv]|] eqn:Hb; [|done].
  destruct (prepare c _ _ w) as [[[l' d'] text]|] eqn:Hp; [|done].
  injection Hprep as -> ->.
  destruct (loaded_ret_already (l !!! "name") (running w)
              (cm "test" (l !!! "test")) (cm "debug" (l !!! "debug")))
    as (o & Ho & H1 & H2 & H3 & H4).
  assert (Hrun : run (spec_handler c) apply w
                 = Outcome (Ok (VDict o)) w
                     [LoadTemplate [l !!! "template_name"]
                        (committer_kwargs cm l tv)]).
  { unfold apply. rewrite (managed_run _ _ _ _ _ _ _ _ _ Hb). cbv zeta.
    cbn [spec_handler]. rewrite (load_template_already _ _ _ _ _ _ Hdiff Hp).
    unfold finish. by rewrite Ho. }
  exists o, [l !!! "template_name"], (committer_kwargs cm l tv).
  rewrite Hrun. cbn [final]. rewrite Hrun. repeat split; assumption.
Qed.

Lemma managed_already_applied_witness :
  (∀ replace s, diff sample_collaborators replace s s = "")
  ∧ prepared sample_collaborators no_overrides [] unchanged_call sample_device
    = Some (CommitThenRevert 105, running sample_device)
  ∧ ∃ o a kw,
      run (spec_handler sample_collaborators)
        (managed no_overrides spec_default_ret spec_loaded_ret []
           unchanged_call) sample_device
      = Outcome (Ok (VDict o)) sample_device [LoadTemplate a kw]
      ∧ o !! "already_configured" = Some (VBool true)
      ∧ o !! "result" = Some (VBool true)
      ∧ o !! "changes" = Some (VDict ∅)
      ∧ o !! "comment" = Some (VStr "Already configured.")
      ∧ run (spec_handler sample_collaborators)
          (managed no_overrides spec_default_ret spec_loaded_ret []
             unchanged_call)
          (final (run (spec_handler sample_collaborators)
                    (managed no_overrides spec_default_ret spec_loaded_ret []
                       unchanged_call) sample_device))
        = run (spec_handler sample_collaborators)
            (managed no_overrides spec_default_ret spec_loaded_ret []
               unchanged_call) sample_device.
Proof.
  assert (H1 : ∀ replace s, diff sample_collaborators replace s s = "").
  { intros replace s. simpl. by rewrite bool_decide_eq_true_2. }
  assert (H2 : prepared sample_collaborators no_overrides [] unchanged_call
                 sample_device
               = Some (CommitThenRevert 105, running sample_device))
    by (vm_compute; reflexivity).
  split; [exact H1|]. split; [exact H2|].
  exact (managed_already_applied sample_collaborators no_overrides []
           unchanged_call sample_device (CommitThenRevert 105) H1 H2).
Defined.

(** ** Ill-formed calls *)

Lemma bind_positional_Err ps args e :
  bind_positional ps args = Err e → e = TypeError.
Proof.
  revert args. induction ps as [|[p d] ps IH]; intros [|a args]; simpl;
    try congruence.
  destruct (bind_positional ps args) as [m|e'] eqn:E; simpl; [congruence|].
  intros [= <-]. by eapply IH.
Qed.

Lemma fill_defaults_Err ps given e :
  fill_defaults ps given = Err e → e = TypeError.
Proof.
  induction ps as [|[p d] ps IH]; simpl; [congruence|].
  destruct (fill_defaults ps given) as [rest|e'] eqn:E; simpl.
  - destruct (given !! p), d; congruence.
  - intros [= <-]. by apply IH.
Qed.

Lemma bind_call_Err ps args kwargs e :
  bind_call ps args kwargs = Err e → e = TypeError.
Proof.
  unfold bind_call.
  destruct (bind_positional ps args) as [pos|e'] eqn:E; simpl.
  - case_decide; [|congruence].
    destruct (fill_defaults ps _) as [l|e'] eqn:E'; simpl; [congruence|].
    intros [= <-]. by eapply fill_defaults_Err.
  - intros [= <-]. by eapply bind_positional_Err.
Qed.

Lemma fill_defaults_missing ps given p :
  (p, None) ∈ ps → given !! p = None →
  fill_defaults ps given = Err TypeError.
Proof.
  intros Hin Hp. induction ps as [|[q d] ps IH]; [by apply elem_of_nil in Hin|].
  simpl. apply elem_of_cons in Hin as [[= <- <-]|Hin].
  - rewrite Hp. destruct (fill_defaults ps given) as [rest|e] eqn:E; simpl;
      [done|]. f_equal. by eapply fill_defaults_Err.
  - by rewrite (IH Hin).
Qed.

Lemma bind_positional_dom ps args pos p :
  bind_positional ps args = Ok pos → is_Some (pos !! p) →
  p ∈ take (length args) ps.*1.
Proof.
  revert args pos. induction ps as [|[q d] ps IH]; intros [|a args] pos; simpl.
  1-3: intros Hb Hs; simplify_eq; rewrite lookup_empty in Hs; by destruct Hs.
  destruct (bind_positional ps args) as [m|] eqn:E; simpl; [|done].
  intros [= <-]. rewrite lookup_insert. case_decide.
  - subst. intros _. apply list_elem_of_here.
  - intros Hs. apply list_elem_of_further. by eapply IH.
Qed.

(** A required parameter that is given neither positionally nor by
    keyword makes the call fail. *)
Lemma bind_call_missing ps args kwargs p :
  (p, None) ∈ ps → p ∉ take (length args) ps.*1 → kwargs !! p = None →
  bind_call ps args kwargs = Err TypeError.
Proof.
  intros Hin Hpos Hkw.
  destruct (bind_call ps args kwargs) as [[l tv]|e] eqn:Hb;
    [|f_equal; by eapply bind_call_Err].
  destruct (bind_call_Ok _ _ _ _ _ Hb) as (pos & Hp & _ & Hl & _).
  rewrite (fill_defaults_missing _ _ p) in Hl; [done|done|].
  rewrite lookup_union, named_lookup, Hkw.
  destruct (pos !! p) as [v|] eqn:E.
  - exfalso. apply Hpos. eapply bind_positional_dom; [done|]. by rewrite E.
  - by case_decide.
Qed.

(** A parameter given both positionally and by keyword makes the call
    fail. *)
Lemma bind_call_duplicate ps args kwargs p :
  p ∈ take (length args) ps.*1 → is_Some (kwargs !! p) →
  bind_call ps args kwargs = Err TypeError.
Proof.
  intros Hpos [v Hkw].
  destruct (bind_call ps args kwargs) as [[l tv]|e] eqn:Hb;
    [|f_equal; by eapply bind_call_Err].
  destruct (bind_call_Ok _ _ _ _ _ Hb) as (pos & Hp & Hdisj & _ & _).
  exfalso.
  assert (Hnamed : p ∈ ps.*1).
  { apply elem_of_take in Hpos as (i & Hi & _). by eapply list_elem_of_lookup_2. }
  assert (is_Some (pos !! p)) as [a Ha].
  { clear Hb Hdisj Hnamed Hkw. revert args pos Hp Hpos.
    induction ps as [|[q d] ps IH]; intros [|a args] pos; simpl;
      try (intros _ H; by apply elem_of_nil in H).
    destruct (bind_positional ps args) as [m|] eqn:E; simpl; [|done].
    intros [= <-] Hin. rewrite lookup_insert. case_decide; [by eexists|].
    apply elem_of_cons in Hin as [?|Hin]; [congruence|]. by eapply IH. }
  apply (proj1 (map_disjoint_spec pos _) Hdisj p a v Ha).
  by rewrite named_lookup, decide_True.
Qed.

Lemma bind_call_too_many ps args kwargs :
  length ps < length args → bind_call ps args kwargs = Err TypeError.
Proof.
  intros Hlen.
  destruct (bind_call ps args kwargs) as [[l tv]|e] eqn:Hb;
    [|f_equal; by eapply bind_call_Err].
  destruct (bind_call_Ok _ _ _ _ _ Hb) as (pos & Hp & _). exfalso.
  clear Hb. revert args pos Hlen Hp.
  induction ps as [|[q d] ps IH]; intros [|a args] pos; simpl; try lia;
    try done.
  destruct (bind_positional ps args) as [m|] eqn:E; simpl; [|done].
  intros Hlen _. eapply IH; [|exact E]. lia.
Qed.

Lemma _update_config_unbound args kwargs :
  bind_call _update_config_params args kwargs = Err TypeError →
  _update_config args kwargs = Throw TypeError.
Proof. intros Hb. unfold _update_config. by rewrite Hb. Qed.

(** X1: an ill-formed call of [_update_config] (no template name at all,
    the template name given both positionally and by keyword, or more
    than sixteen positional arguments) raises [TypeError] and never
    reaches [net.load_template]. *)
Theorem _update_config_rejects_ill_formed args kwargs :
  (args = [] ∧ kwargs !! "template_name" = None)
  ∨ (args ≠ [] ∧ is_Some (kwargs !! "template_name"))
  ∨ (16 < length args)%nat →
  ∀ W (h : handler W) (w : W),
    run h (_update_config args kwargs) w = Outcome (Err TypeError) w [].
Proof.
  intros Hill W h w. rewrite _update_config_unbound; [done|].
  destruct Hill as [[-> Hkw]|[[Hne Hkw]|Hlen]].
  - apply (bind_call_missing _ _ _ "template_name");
      [apply list_elem_of_here|apply not_elem_of_nil|done].
  - apply (bind_call_duplicate _ _ _ "template_name"); [|done].
    destruct args as [|a args]; [done|]. apply list_elem_of_here.
  - by apply bind_call_too_many.
Qed.

Lemma _update_config_rejects_ill_formed_witness :
  ((@nil value = [] ∧ (∅ : gmap string value) !! "template_name" = None)
   ∨ (@nil value ≠ [] ∧ is_Some ((∅ : gmap string value) !! "template_name"))
   ∨ (16 < length (@nil value))%nat)
  ∧ ∀ W (h : handler W) (w : W),
      run h (_update_config [] ∅) w = Outcome (Err TypeError) w [].
Proof.
  assert (H : (@nil value = [] ∧ (∅ : gmap string value) !! "template_name" = None)
              ∨ (@nil value ≠ [] ∧ is_Some ((∅ : gmap string value) !! "template_name"))
              ∨ (16 < length (@nil value))%nat)
    by (left; split; reflexivity).
  split; [exact H|].
  exact (_update_config_rejects_ill_formed [] ∅ H).
Defined.

(** X2: an ill-formed call of [managed] ([name] or [template_name]
    missing, either of them given both positionally and by keyword, or
    more than twenty-one positional arguments) raises [TypeError] before
    anything else happens: no execution function is called. *)
Theorem managed_rejects_ill_formed cm dr lr args kwargs :
  (args = [] ∧ kwargs !! "name" = None)
  ∨ ((length args ≤ 1)%nat ∧ kwargs !! "template_name" = None)
  ∨ ((1 ≤ length args)%nat ∧ is_Some (kwargs !! "name"))
  ∨ ((2 ≤ length args)%nat ∧ is_Some (kwargs !! "template_name"))
  ∨ (21 < length args)%nat →
  ∀ W (h : handler W) (w : W),
    run h (managed cm dr lr args kwargs) w = Outcome (Err TypeError) w [].
Proof.
  intros Hill W h w. rewrite (managed_unbound _ _ _ _ _ TypeError); [done|].
  destruct Hill as [[-> Hkw]|[[Hlen Hkw]|[[Hlen Hkw]|[[Hlen Hkw]|Hlen]]]].
  - apply (bind_call_missing _ _ _ "name");
      [apply list_elem_of_here|apply not_elem_of_nil|done].
  - apply (bind_call_missing _ _ _ "template_name"); [| |done].
    + apply list_elem_of_further, list_elem_of_here.
    + destruct args as [|a [|b args]]; simpl in *; [apply not_elem_of_nil| |lia].
      rewrite list_elem_of_singleton. discriminate.
  - apply (bind_call_duplicate _ _ _ "name"); [|done].
    destruct args as [|a args]; simpl in *; [lia|]. apply list_elem_of_here.
  - apply (bind_call_duplicate _ _ _ "template_name"); [|done].
    destruct args as [|a [|b args]]; simpl in *; [lia|lia|].
    apply list_elem_of_further, list_elem_of_here.
  - by apply bind_call_too_many.
Qed.

Lemma managed_rejects_ill_formed_witness :
  ((1 ≤ length [VStr "bgp"; VStr "t"])%nat ∧ is_Some (call_plain !! "name"))
  ∧ ∀ W (h : handler W) (w : W),
      run h (managed no_overrides spec_default_ret spec_loaded_ret
               [VStr "bgp"; VStr "t"] call_plain) w
      = Outcome (Err TypeError) w [].
Proof.
  assert (H : (1 ≤ length [VStr "bgp"; VStr "t"])%nat
              ∧ is_Some (call_plain !! "name")).
  { split; [simpl; lia|]. eexists. vm_compute. reflexivity. }
  split; [exact H|].
  exact (managed_rejects_ill_formed no_overrides spec_default_ret
           spec_loaded_ret [VStr "bgp"; VStr "t"] call_plain
           (or_intror (or_intror (or_introl H)))).
Defined.

(** ** [_update_config] as a forwarder *)

Lemma bind_positional_zip ps args :
  (length args ≤ length ps)%nat →
  bind_positional ps args = Ok (list_to_map (zip ps.*1 args)).
Proof.
  revert args. induction ps as [|[p d] ps IH]; intros [|a args]; simpl;
    try done; try lia.
  intros Hlen. rewrite IH by lia. done.
Qed.

(** X3: [_update_config] returns or raises exactly what
    [net.load_template] does, and leaves the state as that call left it.
    It calls it once, with the template name as the only positional
    argument and with every keyword it was given; a keyword it declares
    and was not given is passed with its default. *)
Theorem _update_config_transparent {W} (h : handler W) tn
    (kw : gmap string value) w :
  kw !! "template_name" = None →
  run h (_update_config [tn] kw) w
  = Outcome (h (LoadTemplate [tn] (kw ∪ defaults _update_config_params)) w).1
      (h (LoadTemplate [tn] (kw ∪ defaults _update_config_params)) w).2
      [LoadTemplate [tn] (kw ∪ defaults _update_config_params)].
Proof.
  intros Htn. rewrite (_update_config_forwards _ _ Htn).
  cbn [run]. by destruct (h _ w) as [[v|e] w'].
Qed.

Lemma _update_config_transparent_witness :
  (live_opts : gmap string value) !! "template_name" = None
  ∧ run (spec_handler sample_collaborators)
      (_update_config [VStr "salt://ntp.jinja"] live_opts) sample_device
    = Outcome
        (spec_handler sample_collaborators
           (LoadTemplate [VStr "salt://ntp.jinja"]
              (live_opts ∪ defaults _update_config_params)) sample_device).1
        (spec_handler sample_collaborators
           (LoadTemplate [VStr "salt://ntp.jinja"]
              (live_opts ∪ defaults _update_config_params)) sample_device).2
        [LoadTemplate [VStr "salt://ntp.jinja"]
           (live_opts ∪ defaults _update_config_params)].
Proof.
  assert (H : (live_opts : gmap string value) !! "template_name" = None)
    by (vm_compute; reflexivity).
  split; [exact H|].
  exact (_update_config_transparent (spec_handler sample_collaborators)
           (VStr "salt://ntp.jinja") live_opts sample_device H).
Defined.

Lemma zip_keywords_lookup (rest : list value) p v :
  (list_to_map (zip _update_config_keywords rest) : gmap string value) !! p
  = Some v →
  p ∈ take (length rest) _update_config_keywords.
Proof.
  intros Hp. apply elem_of_list_to_map_2 in Hp.
  apply list_elem_of_lookup in Hp as [i Hi].
  apply lookup_zip_with_Some in Hi as (x & y & [= <- <-] & Hx & Hy).
  apply elem_of_take. exists i. split; [done|]. by eapply lookup_lt_Some.
Qed.

(** X4: positional arguments of [_update_config] after the template
    name reach [net.load_template] as keywords, each under the name of
    the parameter at its position; keywords given by name and defaults
    fill the rest. *)
Theorem _update_config_positional tn (rest : list value)
    (kw : gmap string value) :
  (length rest ≤ 15)%nat →
  Forall (λ p, kw !! p = None)
    ("template_name" :: take (length rest) _update_config_keywords) →
  _update_config (tn :: rest) kw
  = Call (LoadTemplate [tn]
            (list_to_map (zip _update_config_keywords rest) ∪ kw
             ∪ defaults _update_config_params)) Ret.
Proof.
  intros Hlen Hfree. apply Forall_cons in Hfree as [Htn Hfree].
  set (given := list_to_map (zip _update_config_keywords rest)
                : gmap string value).
  set (pos := <["template_name" := tn]> given).
  set (nm := filter (named _update_config_params) kw).
  assert (Hpos : bind_positional _update_config_params (tn :: rest) = Ok pos).
  { rewrite bind_positional_zip by (simpl; lia).
    by rewrite _update_config_names. }
  assert (Hgiven : ∀ p v, given !! p = Some v → kw !! p = None).
  { intros p v Hp. apply (Forall_elem _ _ _ Hfree).
    by eapply zip_keywords_lookup. }
  assert (Hgtn : given !! "template_name" = None).
  { destruct (given !! "template_name") as [v|] eqn:E; [|done].
    apply zip_keywords_lookup in E. apply elem_of_take in E as (i & Hi & _).
    apply list_elem_of_lookup_2 in Hi. by apply template_name_not_keyword in Hi. }
  assert (Hdisj : pos ##ₘ nm).
  { apply map_disjoint_spec. intros p x y Hx Hy. unfold pos in Hx.
    unfold nm in Hy. rewrite named_lookup in Hy.
    destruct (decide (p ∈ _update_config_params.*1)); [|done].
    rewrite lookup_insert in Hx. case_decide as Hp.
    - subst p. by rewrite Htn in Hy.
    - by rewrite (Hgiven _ _ Hx) in Hy. }
  destruct (fill_defaults_total _update_config_params (pos ∪ nm)) as [l Hl].
  { repeat constructor; simpl; try apply is_Some_union_r.
    rewrite lookup_union. unfold pos. rewrite lookup_insert_eq.
    apply is_Some_union_l. }
  unfold _update_config.
  rewrite (bind_call_intro _ _ _ pos l Hpos Hdisj Hl).
  cbn [mbind prog_bind prog_bind_def lift].
  set (tv := filter (λ kv, ¬ named _update_config_params kv) kw).
  assert (Hlook : ∀ p, p ∈ _update_config_keywords →
            Some (l !!! p)
            = given !! p ∪ kw !! p ∪ defaults _update_config_params !! p).
  { intros p Hp.
    assert (Hin : p ∈ _update_config_params.*1)
      by (rewrite _update_config_names; by apply list_elem_of_further).
    destruct (fill_defaults_is_Some _ _ _ _ Hl Hin) as [v Hv].
    rewrite (lookup_total_of_lookup _ _ _ Hv), <-Hv.
    rewrite (fill_defaults_lookup _ _ _ p Hl), decide_True by done.
    rewrite !lookup_union. unfold pos, nm.
    rewrite lookup_insert_ne, named_lookup, decide_True by
      (try done; intros <-; by apply template_name_not_keyword in Hp).
    done. }
  assert (Htnl : l !!! "template_name" = tn).
  { apply lookup_total_of_lookup.
    rewrite (fill_defaults_lookup _ _ _ _ Hl), _update_config_names.
    rewrite decide_True by apply list_elem_of_here.
    rewrite !lookup_union. unfold pos. rewrite lookup_insert_eq.
    by destruct (nm !! _), (defaults _ !! _). }
  rewrite call_kwargs_Ok.
  2:{ rewrite forward_fst. apply Forall_forall. intros p Hp. unfold tv.
      rewrite catch_all_lookup, decide_True; [done|].
      rewrite _update_config_names. by apply list_elem_of_further. }
  cbn [mbind prog_bind prog_bind_def lift]. rewrite Htnl. f_equal. f_equal.
  apply map_eq. intros p.
  rewrite lookup_union, list_to_map_forward. unfold tv.
  rewrite catch_all_lookup, _update_config_names, !lookup_union.
  destruct (decide (p ∈ _update_config_keywords)) as [Hp|Hp].
  - rewrite decide_True by by apply list_elem_of_further.
    by rewrite <-(Hlook p Hp), (right_id None _).
  - destruct (decide (p = "template_name")) as [->|Hn].
    + rewrite decide_True by apply list_elem_of_here.
      rewrite Hgtn, Htn.
      assert (defaults _update_config_params !! "template_name" = None) as ->
        by (vm_compute; reflexivity).
      reflexivity.
    + rewrite decide_False by (rewrite elem_of_cons; intros [?|?]; done).
      rewrite defaults_not_named
        by (rewrite _update_config_names, elem_of_cons; intros [?|?]; done).
      destruct (given !! p) as [v|] eqn:E.
      * apply zip_keywords_lookup, elem_of_take in E as (i & Hi & _).
        by apply list_elem_of_lookup_2 in Hi.
      * by rewrite (left_id None _), (right_id None _).
Qed.

Lemma _update_config_positional_witness :
  (length [VStr "hostname r2"; VNone] ≤ 15)%nat
  ∧ Forall (λ p, dry_opts !! p = None)
      ("template_name"
       :: take (length [VStr "hostname r2"; VNone]) _update_config_keywords)
  ∧ _update_config [VStr "t"; VStr "hostname r2"; VNone] dry_opts
    = Call (LoadTemplate [VStr "t"]
              (list_to_map (zip _update_config_keywords
                              [VStr "hostname r2"; VNone]) ∪ dry_opts
               ∪ defaults _update_config_params)) Ret.
Proof.
  assert (H1 : (length [VStr "hostname r2"; VNone] ≤ 15)%nat) by (simpl; lia).
  assert (H2 : Forall (λ p, dry_opts !! p = None)
                 ("template_name"
                  :: take (length [VStr "hostname r2"; VNone])
                       _update_config_keywords)).
  { repeat (apply Forall_cons; split; [vm_compute; reflexivity|]).
    by apply Forall_nil. }
  split; [exact H1|]. split; [exact H2|].
  exact (_update_config_positional (VStr "t") [VStr "hostname r2"; VNone]
           dry_opts H1 H2).
Defined.

(** ** More on [managed] *)

(** X5: called by keyword with [name] and [template_name], whatever else
    is passed, [managed] binds and calls [net.load_template] exactly
    once, with the template name it was given as the only positional
    argument. *)
Theorem managed_keyword_call_contacts_once cm dr lr
    (kwargs : gmap string value) n tn :
  kwargs !! "name" = Some n → kwargs !! "template_name" = Some tn →
  ∃ kw, ∀ W (h : handler W) (w : W),
    trace (run h (managed cm dr lr [] kwargs) w) = [LoadTemplate [tn] kw].
Proof.
  intros Hn Ht.
  destruct (managed_keyword_call kwargs) as (l & tv & Hb & Hl);
    [by eexists|by eexists|].
  exists (committer_kwargs cm l tv). intros W h w.
  rewrite (managed_run _ _ _ _ _ _ _ _ _ Hb). cbv zeta.
  rewrite (Hl "template_name") by by_compute. rewrite Ht. cbn [from_option id].
  by destruct (h _ w) as [[r|e] w'].
Qed.

Lemma managed_keyword_call_contacts_once_witness :
  call_plain !! "name" = Some (VStr "bgp_config_example")
  ∧ call_plain !! "template_name"
    = Some (VStr "/absolute/path/to/bgp_neighbors.mako")
  ∧ ∃ kw, ∀ W (h : handler W) (w : W),
      trace (run h (managed no_overrides spec_default_ret spec_loaded_ret []
                      call_plain) w)
      = [LoadTemplate [VStr "/absolute/path/to/bgp_neighbors.mako"] kw].
Proof.
  assert (H1 : call_plain !! "name" = Some (VStr "bgp_config_example"))
    by (vm_compute; reflexivity).
  assert (H2 : call_plain !! "template_name"
               = Some (VStr "/absolute/path/to/bgp_neighbors.mako"))
    by (vm_compute; reflexivity).
  split; [exact H1|]. split; [exact H2|].
  exact (managed_keyword_call_contacts_once no_overrides spec_default_ret
           spec_loaded_ret call_plain _ _ H1 H2).
Defined.

(** X6: the keyword arguments [managed] hands to [net.load_template] are
    the nineteen keywords of the call site and the caller's own template
    variables, nothing else; the state's [name] is never among them, and
    the template name travels positionally only. *)
Theorem managed_keyword_domain cm dr lr args kwargs :
  is_Ok (bind_call managed_params args kwargs) →
  ∃ a kw k,
    managed cm dr lr args kwargs = Call (LoadTemplate a kw) k
    ∧ length a = 1
    ∧ dom kw = list_to_set managed_keywords
               ∪ (dom kwargs ∖ list_to_set managed_params.*1)
    ∧ kw !! "name" = None
    ∧ kw !! "template_name" = None.
Proof.
  intros [[l tv] Hb]%is_Ok_inv.
  exists [l !!! "template_name"], (committer_kwargs cm l tv),
    (λ r, lift (finish cm dr lr l r)).
  split; [by apply managed_bound|]. split; [done|].
  assert (Hother : ∀ p, p ∉ managed_keywords →
            committer_kwargs cm l tv !! p
            = if decide (p ∈ managed_params.*1) then None else kwargs !! p).
  { intros p Hp. rewrite committer_kwargs_other by done.
    apply (managed_catch_all _ _ _ _ _ Hb). }
  split; [|split].
  - apply set_eq. intros p.
    rewrite elem_of_dom, elem_of_union, elem_of_difference, elem_of_dom,
      !elem_of_list_to_set.
    destruct (decide (p ∈ managed_keywords)) as [Hp|Hp].
    + rewrite committer_kwargs_keyword by done. split; [by left|by eexists].
    + rewrite (Hother p Hp). case_decide; split.
      * by intros [? ?].
      * intros [?|[? ?]]; done.
      * intros ?. by right.
      * intros [?|[? ?]]; done.
  - rewrite Hother by by_compute. by rewrite decide_True by by_compute.
  - rewrite Hother by by_compute. by rewrite decide_True by by_compute.
Qed.

Lemma managed_keyword_domain_witness :
  is_Ok (bind_call managed_params [] sample_call)
  ∧ ∃ a kw k,
      managed no_overrides spec_default_ret spec_loaded_ret [] sample_call
      = Call (LoadTemplate a kw) k
      ∧ length a = 1
      ∧ dom kw = list_to_set managed_keywords
                 ∪ (dom sample_call ∖ list_to_set managed_params.*1)
      ∧ kw !! "name" = None
      ∧ kw !! "template_name" = None.
Proof.
  assert (H : is_Ok (bind_call managed_params [] sample_call))
    by (vm_compute; exact I).
  split; [exact H|].
  exact (managed_keyword_domain no_overrides spec_default_ret spec_loaded_ret
           [] sample_call H).
Defined.

(** X7: [managed] hands [loaded_ret] the result of [default_ret] on the
    state's name as given in the call, and as [test] and [debug] the
    results of [config.merge] on the per-call argument (or [False], the
    compiled default, when none is given): the very values it hands to
    [net.load_template] under these two keywords. *)
Theorem managed_flags_agree cm dr lr args kwargs :
  is_Ok (bind_call managed_params args kwargs) →
  ∃ pos a kw n,
    bind_positional managed_params args = Ok pos
    ∧ (pos ∪ kwargs) !! "name" = Some n
    ∧ managed cm dr lr args kwargs
      = Call (LoadTemplate a kw)
          (λ r, lift (lr (dr n) r
                        (cm "test" (default (VBool false)
                                      ((pos ∪ kwargs) !! "test")))
                        (cm "debug" (default (VBool false)
                                       ((pos ∪ kwargs) !! "debug")))))
    ∧ kw !! "test"
      = Some (cm "test" (default (VBool false) ((pos ∪ kwargs) !! "test")))
    ∧ kw !! "debug"
      = Some (cm "debug" (default (VBool false) ((pos ∪ kwargs) !! "debug"))).
Proof.
  intros [[l tv] Hb]%is_Ok_inv.
  destruct (bind_call_locals _ _ _ _ _ Hb) as (pos & Hpos & Hloc).
  assert (Hdt : defaults managed_params !!! "test" = VBool false)
    by (vm_compute; reflexivity).
  assert (Hdd : defaults managed_params !!! "debug" = VBool false)
    by (vm_compute; reflexivity).
  assert (Hdn : defaults managed_params !! "name" = None)
    by (vm_compute; reflexivity).
  assert (Htest : l !!! "test"
                  = default (VBool false) ((pos ∪ kwargs) !! "test")).
  { destruct (Hloc "test") as [H1 H2]; [by_compute|].
    by rewrite (frame_value l (pos ∪ kwargs) (defaults managed_params) "test"),
      Hdt. }
  assert (Hdebug : l !!! "debug"
                   = default (VBool false) ((pos ∪ kwargs) !! "debug")).
  { destruct (Hloc "debug") as [H1 H2]; [by_compute|].
    by rewrite (frame_value l (pos ∪ kwargs) (defaults managed_params) "debug"),
      Hdd. }
  assert (Hname : (pos ∪ kwargs) !! "name" = Some (l !!! "name")).
  { destruct (Hloc "name") as [H1 H2]; [by_compute|].
    rewrite H1 in H2. rewrite (lookup_union (pos ∪ kwargs)), Hdn in H2.
    by rewrite (right_id None _) in H2. }
  exists pos, [l !!! "template_name"], (committer_kwargs cm l tv),
    (l !!! "name").
  split; [done|]. split; [done|]. rewrite <-Htest, <-Hdebug.
  split; [by apply managed_bound|].
  rewrite !committer_kwargs_keyword, !resolve_lookup by by_compute.
  by rewrite !decide_True by by_compute.
Qed.

Lemma managed_flags_agree_witness :
  is_Ok (bind_call managed_params [] sample_call)
  ∧ ∃ pos a kw n,
      bind_positional managed_params [] = Ok pos
      ∧ (pos ∪ sample_call) !! "name" = Some n
      ∧ managed no_overrides spec_default_ret spec_loaded_ret [] sample_call
        = Call (LoadTemplate a kw)
            (λ r, lift (spec_loaded_ret (spec_default_ret n) r
                          (no_overrides "test"
                             (default (VBool false)
                                ((pos ∪ sample_call) !! "test")))
                          (no_overrides "debug"
                             (default (VBool false)
                                ((pos ∪ sample_call) !! "debug")))))
      ∧ kw !! "test"
        = Some (no_overrides "test"
                  (default (VBool false) ((pos ∪ sample_call) !! "test")))
      ∧ kw !! "debug"
        = Some (no_overrides "debug"
                  (default (VBool false) ((pos ∪ sample_call) !! "debug"))).
Proof.
  assert (H : is_Ok (bind_call managed_params [] sample_call))
    by (vm_compute; exact I).
  split; [exact H|].
  exact (managed_flags_agree no_overrides spec_default_ret spec_loaded_ret
           [] sample_call H).
Defined.

(** ** More on cancel and confirm *)

(** X8: when [__opts__] has no [test] key, [commit_cancelled] and
    [commit_confirmed] raise [KeyError] for it and call no execution
    function. *)
Theorem cancel_confirm_missing_test_option (opts : gmap string value) name :
  opts !! "test" = None →
  ∀ W (h : handler W) (w : W),
    run h (commit_cancelled opts name) w
    = Outcome (Err (KeyError "test")) w []
    ∧ run h (commit_confirmed opts name) w
      = Outcome (Err (KeyError "test")) w [].
Proof.
  intros Ht W h w. unfold commit_cancelled, commit_confirmed, getitem.
  by rewrite Ht.
Qed.

Lemma cancel_confirm_missing_test_option_witness :
  (∅ : gmap string value) !! "test" = None
  ∧ ∀ W (h : handler W) (w : W),
      run h (commit_cancelled ∅ "c1") w = Outcome (Err (KeyError "test")) w []
      ∧ run h (commit_confirmed ∅ "c1") w
        = Outcome (Err (KeyError "test")) w [].
Proof.
  split; [reflexivity|].
  exact (cancel_confirm_missing_test_option ∅ "c1" eq_refl).
Defined.

(** X9: outside dry run, the record that [net.cancel_commit]
    ([net.confirm_commit]) answers with comes back with its [changes]
    replaced by the empty dictionary and every other key as it was (the
    verdict and the comment are those of the execution function); the
    state is the one that call left, and it is the only call. *)
Theorem cancel_confirm_keep_verdict {W} (h : handler W) opts name t w
    (dc df : gmap string value) wc wf :
  opts !! "test" = Some t → truthy t = false →
  h (CancelCommit name) w = (Ok (VDict dc), wc) →
  h (ConfirmCommit name) w = (Ok (VDict df), wf) →
  run h (commit_cancelled opts name) w
  = Outcome (Ok (VDict (<["changes" := VDict ∅]> dc))) wc [CancelCommit name]
  ∧ run h (commit_confirmed opts name) w
    = Outcome (Ok (VDict (<["changes" := VDict ∅]> df))) wf
        [ConfirmCommit name].
Proof.
  intros Ht Htr Hc Hf.
  rewrite (commit_cancelled_live h _ _ _ _ Ht Htr), Hc.
  by rewrite (commit_confirmed_live h _ _ _ _ Ht Htr), Hf.
Qed.

Lemma cancel_confirm_keep_verdict_witness :
  live_opts !! "test" = Some (VBool false) ∧ truthy (VBool false) = false
  ∧ (λ (_ : call) (n : nat), (Ok (VDict test_on), S n)) (CancelCommit "c1") 0
    = (Ok (VDict test_on), 1)
  ∧ (λ (_ : call) (n : nat), (Ok (VDict test_on), S n)) (ConfirmCommit "c1") 0
    = (Ok (VDict test_on), 1)
  ∧ run (λ (_ : call) (n : nat), (Ok (VDict test_on), S n))
      (commit_cancelled live_opts "c1") 0
    = Outcome (Ok (VDict (<["changes" := VDict ∅]> test_on))) 1
        [CancelCommit "c1"]
  ∧ run (λ (_ : call) (n : nat), (Ok (VDict test_on), S n))
      (commit_confirmed live_opts "c1") 0
    = Outcome (Ok (VDict (<["changes" := VDict ∅]> test_on))) 1
        [ConfirmCommit "c1"].
Proof.
  split; [reflexivity|]. split; [reflexivity|]. split; [reflexivity|].
  split; [reflexivity|].
  exact (cancel_confirm_keep_verdict
           (λ (_ : call) (n : nat), (Ok (VDict test_on), S n))
           live_opts "c1" (VBool false) 0 test_on test_on 1 1
           eq_refl eq_refl eq_refl eq_refl).
Defined.

(** X10: outside dry run, when the execution function answers with
    something that is no dictionary, the operation raises [TypeError];
    the call has been made all the same, and the state is the one it
    left. *)
Theorem cancel_confirm_non_record_answer {W} (h : handler W) opts name t w
    vc vf wc wf :
  opts !! "test" = Some t → truthy t = false →
  h (CancelCommit name) w = (Ok vc, wc) → (∀ d, vc ≠ VDict d) →
  h (ConfirmCommit name) w = (Ok vf, wf) → (∀ d, vf ≠ VDict d) →
  run h (commit_cancelled opts name) w
  = Outcome (Err TypeError) wc [CancelCommit name]
  ∧ run h (commit_confirmed opts name) w
    = Outcome (Err TypeError) wf [ConfirmCommit name].
Proof.
  intros Ht Htr Hc Hvc Hf Hvf.
  rewrite (commit_cancelled_live h _ _ _ _ Ht Htr), Hc.
  rewrite (commit_confirmed_live h _ _ _ _ Ht Htr), Hf.
  split.
  - destruct vc; try reflexivity. by destruct (Hvc d).
  - destruct vf; try reflexivity. by destruct (Hvf d).
Qed.

Lemma cancel_confirm_non_record_answer_witness :
  live_opts !! "test" = Some (VBool false) ∧ truthy (VBool false) = false
  ∧ (∀ d, VBool true ≠ VDict d)
  ∧ run (λ (_ : call) (n : nat), (Ok (VBool true), S n))
      (commit_cancelled live_opts "c1") 0
    = Outcome (Err TypeError) 1 [CancelCommit "c1"]
  ∧ run (λ (_ : call) (n : nat), (Ok (VBool true), S n))
      (commit_confirmed live_opts "c1") 0
    = Outcome (Err TypeError) 1 [ConfirmCommit "c1"].
Proof.
  assert (H : ∀ d, VBool true ≠ VDict d) by (intros d; discriminate).
  split; [reflexivity|]. split; [reflexivity|]. split; [exact H|].
  exact (cancel_confirm_non_record_answer
           (λ (_ : call) (n : nat), (Ok (VBool true), S n))
           live_opts "c1" (VBool false) 0 (VBool true) (VBool true) 1 1
           eq_refl eq_refl eq_refl H eq_refl H).
Defined.

(** X11: outside dry run, an exception raised by the execution function
    is not caught: the operation raises the same exception, after that
    one call. *)
Theorem cancel_confirm_propagate_exception {W} (h : handler W) opts name t w
    ec ef wc wf :
  opts !! "test" = Some t → truthy t = false →
  h (CancelCommit name) w = (Err ec, wc) →
  h (ConfirmCommit name) w = (Err ef, wf) →
  run h (commit_cancelled opts name) w
  = Outcome (Err ec) wc [CancelCommit name]
  ∧ run h (commit_confirmed opts name) w
    = Outcome (Err ef) wf [ConfirmCommit name].
Proof.
  intros Ht Htr Hc Hf.
  rewrite (commit_cancelled_live h _ _ _ _ Ht Htr), Hc.
  by rewrite (commit_confirmed_live h _ _ _ _ Ht Htr), Hf.
Qed.

Lemma cancel_confirm_propagate_exception_witness :
  live_opts !! "test" = Some (VBool false) ∧ truthy (VBool false) = false
  ∧ run (λ (_ : call) (n : nat), (Err DeviceCommError : result value, n))
      (commit_cancelled live_opts "c1") 0
    = Outcome (Err DeviceCommError) 0 [CancelCommit "c1"]
  ∧ run (λ (_ : call) (n : nat), (Err DeviceCommError : result value, n))
      (commit_confirmed live_opts "c1") 0
    = Outcome (Err DeviceCommError) 0 [ConfirmCommit "c1"].
Proof.
  split; [reflexivity|]. split; [reflexivity|].
  exact (cancel_confirm_propagate_exception
           (λ (_ : call) (n : nat), (Err DeviceCommError : result value, n))
           live_opts "c1" (VBool false) 0 DeviceCommError DeviceCommError 0 0
           eq_refl eq_refl eq_refl eq_refl).
Defined.
